(** * A shallow embedding of the scheduling simulator

    The development follows the three C sources of the repository:
    - [fifo_scheduler] and [rr_scheduler];
    - [sjf_scheduler], [mlfq_init], [enqueue_mlfq] and [mlfq_scheduler];
    - [ossim.c]: the admission of [RUN]/[BLOCK] requests in
      [check_new_commands] and the loop body of [main].

    Unsigned 32-bit fields are integers of [Z] with the wrap-around written
    out.  The heap is not modelled: a queue is the list of the control blocks
    it links, head first, and the calls to [write] and [free] are recorded,
    in program order, in a list of effects returned by each function. *)

From Stdlib Require Import String.
From Stdlib Require Import ZArith List Lia Bool Permutation.
Import ListNotations.
Open Scope Z_scope.

(** ** Machine integers *)

Module U32.
Definition modulus : Z := 2 ^ 32.
Definition wrap (z : Z) : Z := z mod modulus.
Definition add (a b : Z) : Z := wrap (a + b).
Definition sub (a b : Z) : Z := wrap (a - b).
Definition in_range (z : Z) : Prop := 0 <= z < modulus.
End U32.

(** ** Data model ([queue.h] and [msg.h], as the sources use them) *)

(** The lifecycle tags the sources assign to a control block. *)
Inductive task_status_en : Type :=
| TASK_COMMAND
| TASK_BLOCKED
| TASK_RUNNING.

(** The process control block: every field the sources read or write. *)
Record pcb_t : Type := mk_pcb {
  pid : Z;
  status : task_status_en;
  slice_start_ms : Z;
  sockfd : Z;
  time_ms : Z;
  ellapsed_time_ms : Z;
  last_update_time_ms : Z;
  priority_level : Z
}.

Definition set_status (p : pcb_t) (s : task_status_en) : pcb_t :=
  mk_pcb (pid p) s (slice_start_ms p) (sockfd p) (time_ms p)
         (ellapsed_time_ms p) (last_update_time_ms p) (priority_level p).

Definition set_slice_start_ms (p : pcb_t) (v : Z) : pcb_t :=
  mk_pcb (pid p) (status p) v (sockfd p) (time_ms p)
         (ellapsed_time_ms p) (last_update_time_ms p) (priority_level p).

Definition set_ellapsed_time_ms (p : pcb_t) (v : Z) : pcb_t :=
  mk_pcb (pid p) (status p) (slice_start_ms p) (sockfd p) (time_ms p)
         v (last_update_time_ms p) (priority_level p).

Definition set_last_update_time_ms (p : pcb_t) (v : Z) : pcb_t :=
  mk_pcb (pid p) (status p) (slice_start_ms p) (sockfd p) (time_ms p)
         (ellapsed_time_ms p) v (priority_level p).

Definition set_priority_level (p : pcb_t) (v : Z) : pcb_t :=
  mk_pcb (pid p) (status p) (slice_start_ms p) (sockfd p) (time_ms p)
         (ellapsed_time_ms p) (last_update_time_ms p) v.

(** The request codes of a message; [PROCESS_REQUEST_OTHER] stands for any
    code the simulator does not recognise. *)
Inductive process_request_en : Type :=
| PROCESS_REQUEST_RUN
| PROCESS_REQUEST_BLOCK
| PROCESS_REQUEST_ACK
| PROCESS_REQUEST_DONE
| PROCESS_REQUEST_OTHER (code : Z).

Record msg_t : Type := mk_msg {
  msg_pid : Z;
  request : process_request_en;
  msg_time_ms : Z
}.

(** The system calls a scheduler performs on control blocks, in program
    order.  The cells of the queues themselves are not modelled. *)
Inductive effect : Type :=
| sys_write (fd : Z) (m : msg_t)
| sys_free (p : pcb_t).

(** ** Queues ([queue.c]) *)

(** A queue is the sequence of the control blocks of its elements, head
    first. *)
Definition queue_t : Type := list pcb_t.

(** Modelled from the spec: [enqueue_pcb] of [queue.c], which is not among
    the sources; the queue contract says [append(pcb)] adds to the tail. *)
Definition enqueue_pcb (q : queue_t) (p : pcb_t) : queue_t := q ++ [p].

(** Modelled from the spec: [dequeue_pcb] of [queue.c], which is not among
    the sources; [popHead()] removes and returns the head or signals an
    empty queue (a null pointer for the callers in the sources). *)
Definition dequeue_pcb (q : queue_t) : option pcb_t * queue_t :=
  match q with
  | [] => (None, [])
  | p :: q' => (Some p, q')
  end.

(** Modelled from the spec: [remove_queue_elem] of [queue.c], which is not
    among the sources; [removeElement(ref)] removes that one element and
    returns it, or signals not-found.  An element is referred to by its
    position from the head. *)
Fixpoint remove_queue_elem (q : queue_t) (elem : nat)
  : option pcb_t * queue_t :=
  match q, elem with
  | [], _ => (None, [])
  | p :: q', O => (Some p, q')
  | p :: q', S n =>
      let '(removed, q'') := remove_queue_elem q' n in (removed, p :: q'')
  end.

(** Modelled from the spec: [new_pcb] of [queue.c], which is not among the
    sources; it allocates a control block for one burst and stores the
    process id, the channel and the requested duration.  [fresh] is the
    allocated block before initialisation, [None] a failed allocation. *)
Definition new_pcb (fresh : option pcb_t) (id fd duration : Z)
  : option pcb_t :=
  match fresh with
  | None => None
  | Some b =>
      Some (mk_pcb id (status b) (slice_start_ms b) fd duration
                   (ellapsed_time_ms b) (last_update_time_ms b)
                   (priority_level b))
  end.

(** ** Constants *)

Definition TIME_SLICE : Z := 500.
Definition NUM_QUEUES : Z := 3.

Section Simulator.

(** The duration of one tick of the simulated clock.  The macro is
    declared in a header that is not among the sources, so it is a
    parameter of the development. *)
Variable TICKS_MS : Z.

(** ** Pieces shared by the four policies *)

(** [cpu_task->ellapsed_time_ms += TICKS_MS;] *)
Definition account_tick (p : pcb_t) : pcb_t :=
  set_ellapsed_time_ms p (U32.add (ellapsed_time_ms p) TICKS_MS).

(** [cpu_task->ellapsed_time_ms >= cpu_task->time_ms] *)
Definition burst_complete (p : pcb_t) : bool :=
  ellapsed_time_ms p >=? time_ms p.

(** The [DONE] message of a completed burst. *)
Definition done_msg (current_time_ms : Z) (p : pcb_t) : msg_t :=
  mk_msg (pid p) PROCESS_REQUEST_DONE current_time_ms.

(** [write(sockfd, &msg, sizeof msg)] followed by [free(cpu_task)]; a
    failed write is only reported with [perror]. *)
Definition notify_and_free (current_time_ms : Z) (p : pcb_t)
  : list effect :=
  [sys_write (sockfd p) (done_msg current_time_ms p); sys_free p].

(** [(current_time_ms - cpu_task->slice_start_ms) >= TIME_SLICE] *)
Definition slice_expired (current_time_ms : Z) (p : pcb_t) : bool :=
  U32.sub current_time_ms (slice_start_ms p) >=? TIME_SLICE.

(** Step 1 of [fifo_scheduler] and of [sjf_scheduler], which have the
    same text: the running control block is charged one tick and, when
    its burst is over, reported and freed. *)
Definition account_running (current_time_ms : Z)
           (cpu_task : option pcb_t) : option pcb_t * list effect :=
  match cpu_task with
  | Some p =>
      let p := account_tick p in
      if burst_complete p
      then (None, notify_and_free current_time_ms p)
      else (Some p, [])
  | None => (None, [])
  end.

(** ** FIFO *)

Definition fifo_scheduler (current_time_ms : Z) (rq : queue_t)
           (cpu_task : option pcb_t)
  : queue_t * option pcb_t * list effect :=
  let '(cpu_task, eff) := account_running current_time_ms cpu_task in
  match cpu_task with
  | None =>
      let '(next, rq) := dequeue_pcb rq in (rq, next, eff)
  | Some _ => (rq, cpu_task, eff)
  end.

(** ** Shortest job first *)

(** The [while] loop of [sjf_scheduler]: [it] is the rest of the queue
    still to visit and [i] its position; [min_elem] is the position of
    the current minimum and [min_pcb] its control block. *)
Fixpoint sjf_scan (it : list pcb_t) (i : nat) (min_elem : nat)
         (min_pcb : pcb_t) : nat * pcb_t :=
  match it with
  | [] => (min_elem, min_pcb)
  | p :: it' =>
      if time_ms p <? time_ms min_pcb
      then sjf_scan it' (S i) i p
      else sjf_scan it' (S i) min_elem min_pcb
  end.

(** [first_dispatch_done] is the function's static flag; it is passed in
    and returned. *)
Definition sjf_scheduler (first_dispatch_done : bool)
           (current_time_ms : Z) (rq : queue_t) (cpu_task : option pcb_t)
  : bool * queue_t * option pcb_t * list effect :=
  let '(cpu_task, eff) := account_running current_time_ms cpu_task in
  if negb first_dispatch_done && (current_time_ms <? 200)
  then (first_dispatch_done, rq, cpu_task, eff)
  else
    match cpu_task, rq with
    | None, head :: _ =>
        let '(min_elem, _) := sjf_scan rq 0%nat 0%nat head in
        match remove_queue_elem rq min_elem with
        | (Some removed, rq') => (true, rq', Some removed, eff)
        | (None, rq') => (first_dispatch_done, rq', None, eff)
        end
    | _, _ => (first_dispatch_done, rq, cpu_task, eff)
    end.

(** ** Round robin *)

(** Step 1 of [rr_scheduler]: the running control block is charged one
    tick, then completes, has its slice renewed or is preempted when the
    slice is over, or goes on. *)
Definition rr_account (current_time_ms : Z) (rq : queue_t)
           (cpu_task : option pcb_t)
  : queue_t * option pcb_t * list effect :=
  match cpu_task with
  | Some p =>
      let p := account_tick p in
      if burst_complete p
      then (rq, None, notify_and_free current_time_ms p)
      else if slice_expired current_time_ms p
      then
        match rq with
        | [] => (rq, Some (set_slice_start_ms p current_time_ms), [])
        | _ :: _ => (enqueue_pcb rq p, None, [])
        end
      else (rq, Some p, [])
  | None => (rq, None, [])
  end.

(** Step 2 of [rr_scheduler]. *)
Definition rr_dispatch (current_time_ms : Z) (rq : queue_t)
           (cpu_task : option pcb_t) : queue_t * option pcb_t :=
  match cpu_task with
  | None =>
      match dequeue_pcb rq with
      | (Some next, rq) =>
          (rq, Some (set_slice_start_ms next current_time_ms))
      | (None, rq) => (rq, None)
      end
  | Some _ => (rq, cpu_task)
  end.

Definition rr_scheduler (current_time_ms : Z) (rq : queue_t)
           (cpu_task : option pcb_t)
  : queue_t * option pcb_t * list effect :=
  let '(rq, cpu_task, eff) := rr_account current_time_ms rq cpu_task in
  let '(rq, cpu_task) := rr_dispatch current_time_ms rq cpu_task in
  (rq, cpu_task, eff).

(** Consecutive iterations of the loop of [main] as the round-robin
    policy sees them: before each call [check_new_commands] appends the
    control blocks admitted at that tick to the ready queue, and after
    each call the clock advances by one tick. *)
Fixpoint rr_run (current_time_ms : Z) (arrivals : list (list pcb_t))
         (rq : queue_t) (cpu_task : option pcb_t)
  : queue_t * option pcb_t * list effect :=
  match arrivals with
  | [] => (rq, cpu_task, [])
  | admitted :: arrivals' =>
      let '(rq, cpu_task, eff) :=
        rr_scheduler current_time_ms (rq ++ admitted) cpu_task in
      let '(rq, cpu_task, eff') :=
        rr_run (U32.add current_time_ms TICKS_MS) arrivals' rq cpu_task in
      (rq, cpu_task, eff ++ eff')
  end.

(** ** Multi-level feedback queue *)

(** The static array [levels]: one queue per priority level, level 0
    first. *)
Definition mlfq_levels : Type := list queue_t.

Definition mlfq_init : mlfq_levels := repeat [] (Z.to_nat NUM_QUEUES).

(** [enqueue_pcb(&levels[i].queue, p)]; an index outside the array is
    undefined behaviour and yields [None]. *)
Fixpoint enqueue_at (lv : mlfq_levels) (i : nat) (p : pcb_t)
  : option mlfq_levels :=
  match lv, i with
  | [], _ => None
  | q :: lv', O => Some (enqueue_pcb q p :: lv')
  | q :: lv', S n =>
      match enqueue_at lv' n p with
      | Some lv'' => Some (q :: lv'')
      | None => None
      end
  end.

Definition enqueue_level (lv : mlfq_levels) (i : Z) (p : pcb_t)
  : option mlfq_levels :=
  if (0 <=? i) && (i <? NUM_QUEUES)
  then enqueue_at lv (Z.to_nat i) p
  else None.

Definition enqueue_mlfq (lv : mlfq_levels) (pcb : pcb_t)
  : option mlfq_levels :=
  let pcb := set_priority_level pcb 0 in
  let pcb := set_ellapsed_time_ms pcb 0 in
  let pcb := set_slice_start_ms pcb 0 in
  enqueue_level lv 0 pcb.

(** The [for] loop of step 2: the levels still to visit, in order. *)
Fixpoint mlfq_pick (lv : mlfq_levels) : option pcb_t * mlfq_levels :=
  match lv with
  | [] => (None, [])
  | q :: lv' =>
      match dequeue_pcb q with
      | (Some next, q') => (Some next, q' :: lv')
      | (None, q') =>
          let '(next, lv'') := mlfq_pick lv' in (next, q' :: lv'')
      end
  end.

(** [cpu_task->priority_level] after the test of step 1.b. *)
Definition demote (p : pcb_t) : pcb_t :=
  if priority_level p <? NUM_QUEUES - 1
  then set_priority_level p (priority_level p + 1)
  else p.

(** Step 2 of [mlfq_scheduler]. *)
Definition mlfq_dispatch (current_time_ms : Z) (lv : mlfq_levels)
           (cpu_task : option pcb_t) : mlfq_levels * option pcb_t :=
  match cpu_task with
  | None =>
      match mlfq_pick lv with
      | (Some next, lv') =>
          (lv', Some (set_slice_start_ms next current_time_ms))
      | (None, lv') => (lv', None)
      end
  | Some _ => (lv, cpu_task)
  end.

(** Step 1 of [mlfq_scheduler]: the running control block is charged
    one tick, then completes, is demoted and requeued, or goes on. *)
Definition mlfq_account (lv : mlfq_levels) (current_time_ms : Z)
           (cpu_task : option pcb_t)
  : option (mlfq_levels * option pcb_t * list effect) :=
  match cpu_task with
  | Some p =>
      let p := account_tick p in
      if burst_complete p
      then Some (lv, None, notify_and_free current_time_ms p)
      else if slice_expired current_time_ms p
      then
        let p := demote p in
        match enqueue_level lv (priority_level p) p with
        | Some lv' => Some (lv', None, [])
        | None => None
        end
      else Some (lv, Some p, [])
  | None => Some (lv, None, [])
  end.

(** The ready queue argument is unused, as in the source, and left out. *)
Definition mlfq_scheduler (lv : mlfq_levels) (current_time_ms : Z)
           (cpu_task : option pcb_t)
  : option (mlfq_levels * option pcb_t * list effect) :=
  match mlfq_account lv current_time_ms cpu_task with
  | Some (lv, cpu_task, eff) =>
      let '(lv, cpu_task) := mlfq_dispatch current_time_ms lv cpu_task in
      Some (lv, cpu_task, eff)
  | None => None
  end.

(** ** The simulator ([ossim.c]) *)

Inductive scheduler_en : Type :=
| NULL_SCHEDULER
| SCHED_FIFO
| SCHED_SJF
| SCHED_RR
| SCHED_MLFQ.

(** The locals of [main] that the loop threads through its calls,
    together with the two static variables of the policies.  The queue of
    connections is left out: its records stand for sockets, not for
    bursts, and no policy sees them. *)
Record simulator : Type := mk_simulator {
  ready_queue : queue_t;
  blocked_queue : queue_t;
  levels : mlfq_levels;
  cpu_task : option pcb_t;
  first_dispatch_done : bool;
  current_time_ms : Z
}.

Definition initial_simulator : simulator :=
  mk_simulator [] [] mlfq_init None false 0.

(** One message read from a connection by [check_new_commands]: the
    descriptor of the connection, the message, whether the [ACK] could be
    written back, and the outcome of the allocation [new_pcb] performs. *)
Record command : Type := mk_command {
  cmd_sockfd : Z;
  cmd_msg : msg_t;
  cmd_ack_written : bool;
  cmd_fresh : option pcb_t
}.

(** The body of the second loop of [check_new_commands] for a connection
    whose message was read. *)
Definition handle_command (scheduler : scheduler_en) (now_ms : Z)
           (c : command) (blocked_q ready_q : queue_t) (lv : mlfq_levels)
  : option (queue_t * queue_t * mlfq_levels) :=
  let msg := cmd_msg c in
  if negb (cmd_ack_written c) then Some (blocked_q, ready_q, lv)
  else
    match request msg with
    | PROCESS_REQUEST_RUN =>
        match new_pcb (cmd_fresh c) (msg_pid msg) (cmd_sockfd c)
                      (msg_time_ms msg) with
        | None => Some (blocked_q, ready_q, lv)
        | Some p =>
            let p := set_status p TASK_RUNNING in
            let p := set_ellapsed_time_ms p 0 in
            let p := set_slice_start_ms p 0 in
            match scheduler with
            | SCHED_MLFQ =>
                match enqueue_mlfq lv p with
                | Some lv' => Some (blocked_q, ready_q, lv')
                | None => None
                end
            | _ => Some (blocked_q, enqueue_pcb ready_q p, lv)
            end
        end
    | PROCESS_REQUEST_BLOCK =>
        match new_pcb (cmd_fresh c) (msg_pid msg) (cmd_sockfd c)
                      (msg_time_ms msg) with
        | None => Some (blocked_q, ready_q, lv)
        | Some p =>
            let p := set_status p TASK_BLOCKED in
            let p := set_ellapsed_time_ms p 0 in
            let p := set_last_update_time_ms p now_ms in
            Some (enqueue_pcb blocked_q p, ready_q, lv)
        end
    | _ => Some (blocked_q, ready_q, lv)
    end.

(** The second loop of [check_new_commands] over the messages read at
    this tick, in the order of the connections. *)
Fixpoint check_new_commands (scheduler : scheduler_en) (now_ms : Z)
         (cs : list command) (blocked_q ready_q : queue_t)
         (lv : mlfq_levels)
  : option (queue_t * queue_t * mlfq_levels) :=
  match cs with
  | [] => Some (blocked_q, ready_q, lv)
  | c :: cs' =>
      match handle_command scheduler now_ms c blocked_q ready_q lv with
      | Some (blocked_q, ready_q, lv) =>
          check_new_commands scheduler now_ms cs' blocked_q ready_q lv
      | None => None
      end
  end.

(** [check_blocked_queue]: every blocked control block is aged by one
    tick and leaves the queue when its time is up. *)
Fixpoint check_blocked_queue (blocked_q : queue_t) (now_ms : Z)
  : queue_t * list effect :=
  match blocked_q with
  | [] => ([], [])
  | p :: it =>
      let '(rest, eff) := check_blocked_queue it now_ms in
      match status p with
      | TASK_BLOCKED =>
          let p := account_tick p in
          if burst_complete p
          then (rest, notify_and_free now_ms p ++ eff)
          else (p :: rest, eff)
      | _ => (p :: rest, eff)
      end
  end.

(** The [switch] of [main]. *)
Definition run_scheduler (scheduler_type : scheduler_en) (st : simulator)
  : option (simulator * list effect) :=
  let now := current_time_ms st in
  match scheduler_type with
  | SCHED_FIFO =>
      let '(rq, cpu, eff) :=
        fifo_scheduler now (ready_queue st) (cpu_task st) in
      Some (mk_simulator rq (blocked_queue st) (levels st) cpu
                         (first_dispatch_done st) now, eff)
  | SCHED_SJF =>
      let '(flag, rq, cpu, eff) :=
        sjf_scheduler (first_dispatch_done st) now (ready_queue st)
                      (cpu_task st) in
      Some (mk_simulator rq (blocked_queue st) (levels st) cpu flag now,
            eff)
  | SCHED_RR =>
      let '(rq, cpu, eff) :=
        rr_scheduler now (ready_queue st) (cpu_task st) in
      Some (mk_simulator rq (blocked_queue st) (levels st) cpu
                         (first_dispatch_done st) now, eff)
  | SCHED_MLFQ =>
      match mlfq_scheduler (levels st) now (cpu_task st) with
      | Some (lv, cpu, eff) =>
          Some (mk_simulator (ready_queue st) (blocked_queue st) lv cpu
                             (first_dispatch_done st) now, eff)
      | None => None
      end
  | NULL_SCHEDULER => Some (st, [])
  end.

(** One iteration of the loop of [main]: the commands read at this tick,
    the blocked queue, the active policy, then the clock. *)
Definition main_loop_body (scheduler_type : scheduler_en)
           (cs : list command) (st : simulator)
  : option (simulator * list effect) :=
  let now := current_time_ms st in
  match check_new_commands scheduler_type now cs (blocked_queue st)
                           (ready_queue st) (levels st) with
  | None => None
  | Some (blocked_q, ready_q, lv) =>
      let '(blocked_q, eff_b) := check_blocked_queue blocked_q now in
      match run_scheduler scheduler_type
              (mk_simulator ready_q blocked_q lv (cpu_task st)
                            (first_dispatch_done st) now) with
      | None => None
      | Some (st', eff_s) =>
          Some (mk_simulator (ready_queue st') (blocked_queue st')
                             (levels st') (cpu_task st')
                             (first_dispatch_done st')
                             (U32.add now TICKS_MS),
                eff_b ++ eff_s)
      end
  end.

(** The control blocks the simulator holds: the CPU slot, the ready
    queue, the levels of the MLFQ and the blocked queue. *)
Definition cpu_slot (cpu : option pcb_t) : list pcb_t :=
  match cpu with
  | Some p => [p]
  | None => []
  end.

Definition held (st : simulator) : list pcb_t :=
  cpu_slot (cpu_task st) ++ ready_queue st ++ concat (levels st)
           ++ blocked_queue st.

(** A command as the connection layer can deliver it: the fields of the
    message are 32-bit values. *)
Definition command_ok (c : command) : Prop :=
  U32.in_range (msg_time_ms (cmd_msg c)).

(** The states the loop of [main] goes through. *)
Inductive reachable (scheduler_type : scheduler_en) : simulator -> Prop :=
| reachable_initial : reachable scheduler_type initial_simulator
| reachable_loop st cs st' eff :
    reachable scheduler_type st ->
    Forall command_ok cs ->
    main_loop_body scheduler_type cs st = Some (st', eff) ->
    reachable scheduler_type st'.

(** ** Histories of one control block under MLFQ

    What [mlfq_scheduler] does to a control block from one call to the
    next: it charges it a tick, it dispatches it, or it finds its quantum
    expired and demotes it before requeueing it. *)
Inductive mlfq_event : Type :=
| ev_tick
| ev_dispatch (current_time_ms : Z)
| ev_quantum_expired.

Definition mlfq_apply (p : pcb_t) (e : mlfq_event) : pcb_t :=
  match e with
  | ev_tick => account_tick p
  | ev_dispatch now => set_slice_start_ms p now
  | ev_quantum_expired => demote p
  end.

Definition is_expiry (e : mlfq_event) : bool :=
  match e with
  | ev_quantum_expired => true
  | _ => false
  end.

Definition expiries (h : list mlfq_event) : nat :=
  length (filter is_expiry h).

Definition all_empty (lv : mlfq_levels) : Prop :=
  Forall (fun q : queue_t => q = []) lv.

(** The clock [n] iterations of the loop of [main] later. *)
Definition clock_after (current_time_ms : Z) (n : nat) : Z :=
  Nat.iter n (fun t => U32.add t TICKS_MS) current_time_ms.


(** ** Invariants of the simulator *)

(** What identifies a burst and its progress: every field of the control
    block but the slice start and the priority level, which the policies
    rewrite when they dispatch or demote. *)
Definition accounting (p : pcb_t)
  : Z * task_status_en * Z * Z * Z * Z :=
  (pid p, status p, sockfd p, time_ms p, ellapsed_time_ms p,
   last_update_time_ms p).

Definition elapsed_bounded (p : pcb_t) : Prop :=
  0 <= ellapsed_time_ms p <= time_ms p /\ time_ms p < U32.modulus.

Definition level_in_range (p : pcb_t) : Prop :=
  0 <= priority_level p <= NUM_QUEUES - 1.

Definition sound (scheduler_type : scheduler_en) (st : simulator) : Prop :=
  Forall elapsed_bounded (held st)
  /\ length (levels st) = Z.to_nat NUM_QUEUES
  /\ (scheduler_type = SCHED_MLFQ ->
      Forall level_in_range
             (cpu_slot (cpu_task st) ++ concat (levels st))).



(** ** Sample data for concrete runs *)

(** A freshly allocated control block. *)
Definition blank_pcb : pcb_t := mk_pcb 0 TASK_COMMAND 0 0 0 0 0 0.

(** A [RUN] request that is acknowledged and whose allocation succeeds. *)
Definition run_command (id fd duration : Z) : command :=
  mk_command fd (mk_msg id PROCESS_REQUEST_RUN duration) true
             (Some blank_pcb).

(** The control block of process 1 on channel 3, as admitted and then as
    it is after some time on the CPU. *)
Definition burst (duration elapsed : Z) : pcb_t :=
  mk_pcb 1 TASK_RUNNING 0 3 duration elapsed 0 0.

(** The control blocks [check_new_commands] appends to the shared ready
    queue for the commands of one tick, under FIFO, SJF and RR. *)
Fixpoint run_arrivals (cs : list command) : list pcb_t :=
  match cs with
  | [] => []
  | c :: cs' =>
      if cmd_ack_written c
      then
        match request (cmd_msg c),
              new_pcb (cmd_fresh c) (msg_pid (cmd_msg c)) (cmd_sockfd c)
                      (msg_time_ms (cmd_msg c)) with
        | PROCESS_REQUEST_RUN, Some p =>
            set_slice_start_ms
              (set_ellapsed_time_ms (set_status p TASK_RUNNING) 0) 0
              :: run_arrivals cs'
        | _, _ => run_arrivals cs'
        end
      else run_arrivals cs'
  end.

(** ** Start-up of [main] ([ossim.c]) *)

(** The values of the enumeration [scheduler_en]. *)
Definition scheduler_value (s : scheduler_en) : Z :=
  match s with
  | NULL_SCHEDULER => -1
  | SCHED_FIFO => 0
  | SCHED_SJF => 1
  | SCHED_RR => 2
  | SCHED_MLFQ => 3
  end.

(** The array [SCHEDULER_NAMES], closed by a null pointer. *)
Definition SCHEDULER_NAMES : list (option string) :=
  [Some "FIFO"%string; Some "SJF"%string; Some "RR"%string;
   Some "MLFQ"%string; None].

(** [SCHEDULER_NAMES[scheduler_type]]; an index outside the array is
    undefined behaviour and yields [None], as does the closing null
    pointer. *)
Definition scheduler_name (s : scheduler_en) : option string :=
  if scheduler_value s <? 0 then None
  else
    match nth_error SCHEDULER_NAMES (Z.to_nat (scheduler_value s)) with
    | Some name => name
    | None => None
    end.

(** [get_scheduler]; [None] is the null pointer and [strcmp] compares
    the bytes of the two strings. *)
Definition get_scheduler (name : option string) : scheduler_en :=
  match name with
  | None => NULL_SCHEDULER
  | Some name =>
      if String.eqb name "FIFO" then SCHED_FIFO
      else if String.eqb name "SJF" then SCHED_SJF
      else if String.eqb name "RR" then SCHED_RR
      else if String.eqb name "MLFQ" then SCHED_MLFQ
      else NULL_SCHEDULER
  end.

(** The checks [main] makes on its arguments before it creates the socket:
    [argv] holds the program name and the arguments, and [None] is the
    return of [EXIT_FAILURE]. *)
Definition main_arguments (argv : list string) : option scheduler_en :=
  match argv with
  | [_; name] =>
      match get_scheduler (Some name) with
      | NULL_SCHEDULER => None
      | scheduler_type => Some scheduler_type
      end
  | _ => None
  end.

(** ** Connections ([ossim.c]) *)

(** [sizeof(msg_t)]; the type is declared in a header that is not among
    the sources. *)
Variable SIZEOF_MSG : Z.

(** [read_msg_nonblock]: [n] is what [recv] returned and [would_block]
    tells whether [errno] is [EAGAIN] or [EWOULDBLOCK]. *)
Definition read_msg_nonblock (n : Z) (would_block : bool) : Z :=
  if n =? 0 then 0
  else if n <? 0 then (if would_block then -2 else -1)
  else if negb (n =? SIZEOF_MSG) then -1
  else 1.

(** What the outside world does for one connection at one tick: the
    return of [recv] with the message it filled in, whether the [ACK]
    could be written back, and the outcome of the allocation of
    [new_pcb]. *)
Record delivery : Type := mk_delivery {
  recv_n : Z;
  recv_would_block : bool;
  recv_msg : msg_t;
  ack_written : bool;
  allocation : option pcb_t
}.

(** The system calls made on the connections, in program order. *)
Inductive connection_effect : Type :=
| sys_close (fd : Z)
| sys_write_ack (fd : Z) (m : msg_t).

Definition set_sockfd (p : pcb_t) (v : Z) : pcb_t :=
  mk_pcb (pid p) (status p) (slice_start_ms p) v (time_ms p)
         (ellapsed_time_ms p) (last_update_time_ms p) (priority_level p).

(** The first loop of [check_new_commands]: each accepted client, with
    the outcome of the allocation of its record, in the order of the calls
    to [accept]. *)
Fixpoint accept_connections (clients : list (Z * option pcb_t))
         (command_q : queue_t) : queue_t * list connection_effect :=
  match clients with
  | [] => (command_q, [])
  | (client, fresh) :: clients' =>
      match new_pcb fresh (-1) (U32.wrap client) 0 with
      | None =>
          let '(command_q, eff) := accept_connections clients' command_q in
          (command_q, sys_close client :: eff)
      | Some cmd =>
          accept_connections clients'
            (enqueue_pcb command_q (set_status cmd TASK_COMMAND))
      end
  end.

(** The body of the second loop of [check_new_commands] for the record
    [cmd] of one connection. *)
Definition serve_connection (scheduler : scheduler_en) (now_ms : Z)
           (cmd : pcb_t) (d : delivery) (blocked_q ready_q : queue_t)
           (lv : mlfq_levels)
  : option (pcb_t * queue_t * queue_t * mlfq_levels
            * list connection_effect) :=
  let r := read_msg_nonblock (recv_n d) (recv_would_block d) in
  if r =? -2 then Some (cmd, blocked_q, ready_q, lv, [])
  else if r <=? 0
  then Some (set_sockfd cmd (U32.wrap (-1)), blocked_q, ready_q, lv,
             [sys_close (sockfd cmd)])
  else
    match handle_command scheduler now_ms
            (mk_command (sockfd cmd) (recv_msg d) (ack_written d)
                        (allocation d))
            blocked_q ready_q lv with
    | Some (blocked_q, ready_q, lv) =>
        Some (cmd, blocked_q, ready_q, lv,
              [sys_write_ack (sockfd cmd)
                 (mk_msg (msg_pid (recv_msg d)) PROCESS_REQUEST_ACK now_ms)])
    | None => None
    end.

(** The second loop of [check_new_commands] over the queue of
    connections, each record with what is delivered on it at this tick. *)
Fixpoint serve_connections (scheduler : scheduler_en) (now_ms : Z)
         (conns : list (pcb_t * delivery)) (blocked_q ready_q : queue_t)
         (lv : mlfq_levels)
  : option (queue_t * queue_t * queue_t * mlfq_levels
            * list connection_effect) :=
  match conns with
  | [] => Some ([], blocked_q, ready_q, lv, [])
  | (cmd, d) :: conns' =>
      match serve_connection scheduler now_ms cmd d blocked_q ready_q lv with
      | None => None
      | Some (cmd, blocked_q, ready_q, lv, eff) =>
          match serve_connections scheduler now_ms conns' blocked_q ready_q
                                  lv with
          | None => None
          | Some (command_q, blocked_q, ready_q, lv, eff') =>
              Some (cmd :: command_q, blocked_q, ready_q, lv, eff ++ eff')
          end
      end
  end.

(** The messages read in full at this tick, as [check_new_commands]
    handles them. *)
Fixpoint commands_read (conns : list (pcb_t * delivery)) : list command :=
  match conns with
  | [] => []
  | (cmd, d) :: conns' =>
      if read_msg_nonblock (recv_n d) (recv_would_block d) =? 1
      then mk_command (sockfd cmd) (recv_msg d) (ack_written d)
                      (allocation d) :: commands_read conns'
      else commands_read conns'
  end.

(** A connection is lost when [recv] reports the end of the stream, an
    error other than an empty socket, or a message of the wrong size. *)
Definition connection_lost (d : delivery) : bool :=
  (recv_n d =? 0)
  || ((recv_n d <? 0) && negb (recv_would_block d))
  || ((0 <? recv_n d) && negb (recv_n d =? SIZEOF_MSG)).

(** The control blocks [check_new_commands] appends to the blocked queue
    for the commands of one tick, under every policy. *)
Fixpoint block_arrivals (now_ms : Z) (cs : list command) : list pcb_t :=
  match cs with
  | [] => []
  | c :: cs' =>
      if cmd_ack_written c
      then
        match request (cmd_msg c),
              new_pcb (cmd_fresh c) (msg_pid (cmd_msg c)) (cmd_sockfd c)
                      (msg_time_ms (cmd_msg c)) with
        | PROCESS_REQUEST_BLOCK, Some p =>
            set_last_update_time_ms
              (set_ellapsed_time_ms (set_status p TASK_BLOCKED) 0) now_ms
              :: block_arrivals now_ms cs'
        | _, _ => block_arrivals now_ms cs'
        end
      else block_arrivals now_ms cs'
  end.

(** The control blocks released by a list of effects, in order. *)
Definition freed (eff : list effect) : list pcb_t :=
  flat_map (fun e => match e with
                     | sys_free p => [p]
                     | sys_write _ _ => []
                     end) eff.

(** What names a burst all its life: the process, its channel and the
    duration it asked for. *)
Definition burst_id (p : pcb_t) : Z * Z * Z :=
  (pid p, sockfd p, time_ms p).

(** Consecutive iterations of the loop of [main] as the FIFO policy sees
    them, in the manner of [rr_run]. *)
Fixpoint fifo_run (current_time_ms : Z) (arrivals : list (list pcb_t))
         (rq : queue_t) (cpu_task : option pcb_t)
  : queue_t * option pcb_t * list effect :=
  match arrivals with
  | [] => (rq, cpu_task, [])
  | admitted :: arrivals' =>
      let '(rq, cpu_task, eff) :=
        fifo_scheduler current_time_ms (rq ++ admitted) cpu_task in
      let '(rq, cpu_task, eff') :=
        fifo_run (U32.add current_time_ms TICKS_MS) arrivals' rq cpu_task in
      (rq, cpu_task, eff ++ eff')
  end.

(** ** The levels of the MLFQ and the field [priority_level]

    [levels_labelled i lv]: the queues [lv], which are the levels from
    index [i] on, hold only control blocks whose [priority_level] is the
    index of their queue. *)
Fixpoint levels_labelled (i : Z) (lv : mlfq_levels) : Prop :=
  match lv with
  | [] => True
  | q :: lv' =>
      Forall (fun p => priority_level p = i) q
      /\ levels_labelled (i + 1) lv'
  end.


(** ** Shutdown of [main] ([ossim.c])

    [while (q.head) free(dequeue_pcb(&q));]: at most [n] turns of the
    loop, which stops at the first empty queue. *)
Fixpoint free_queue_turns (n : nat) (q : queue_t) : list effect :=
  match n with
  | O => []
  | S n' =>
      match dequeue_pcb q with
      | (Some p, q') => sys_free p :: free_queue_turns n' q'
      | (None, _) => []
      end
  end.

Definition free_queue (q : queue_t) : list effect :=
  free_queue_turns (length q) q.

(** The releases after the loop of [main]: the queue of connections, the
    ready queue, the blocked queue, then the block on the CPU.  The calls
    to [close] and [unlink] before them touch no control block. *)
Definition main_cleanup (command_queue : queue_t) (st : simulator)
  : list effect :=
  free_queue command_queue
  ++ free_queue (ready_queue st)
  ++ free_queue (blocked_queue st)
  ++ match cpu_task st with
     | Some p => [sys_free p]
     | None => []
     end.


(** * Properties *)

(** ** Arithmetic of 32-bit fields *)

Lemma U32_wrap_range z : U32.in_range (U32.wrap z).
Proof.
  unfold U32.in_range, U32.wrap, U32.modulus.
  apply Z.mod_pos_bound. lia.
Qed.

Lemma U32_wrap_small z : U32.in_range z -> U32.wrap z = z.
Proof. unfold U32.in_range, U32.wrap. intros H. now apply Z.mod_small. Qed.

Lemma U32_add_no_carry a b :
  0 <= a + b < U32.modulus -> U32.add a b = a + b.
Proof. intros H. unfold U32.add. now apply U32_wrap_small. Qed.



Lemma geb_true_iff a b : (a >=? b) = true <-> b <= a.
Proof. rewrite Z.geb_leb. apply Z.leb_le. Qed.

Lemma geb_false_iff a b : (a >=? b) = false <-> a < b.
Proof. rewrite Z.geb_leb. apply Z.leb_gt. Qed.

(** ** Multi-level feedback queue *)

Lemma enqueue_at_app (pre : mlfq_levels) (q : queue_t)
      (rest : mlfq_levels) (p : pcb_t) :
  enqueue_at (pre ++ q :: rest) (length pre) p
  = Some (pre ++ enqueue_pcb q p :: rest).
Proof.
  induction pre as [|q0 pre IH]; simpl.
  - reflexivity.
  - now rewrite IH.
Qed.

Lemma enqueue_level_app (pre : mlfq_levels) (q : queue_t)
      (rest : mlfq_levels) (p : pcb_t) :
  (length pre < Z.to_nat NUM_QUEUES)%nat ->
  enqueue_level (pre ++ q :: rest) (Z.of_nat (length pre)) p
  = Some (pre ++ enqueue_pcb q p :: rest).
Proof.
  intros H. unfold enqueue_level.
  replace (0 <=? Z.of_nat (length pre)) with true
    by (symmetry; apply Z.leb_le; lia).
  replace (Z.of_nat (length pre) <? NUM_QUEUES) with true
    by (symmetry; apply Z.ltb_lt; unfold NUM_QUEUES in *; lia).
  simpl. rewrite Nat2Z.id. apply enqueue_at_app.
Qed.

(** C8: [enqueue_mlfq] puts a control block at the tail of level 0 with
    its priority level, its elapsed time and its slice start all set to
    zero, whatever these fields held before; the other fields are kept,
    and the other levels are left alone.  The admission of a [RUN]
    request under MLFQ goes through [enqueue_mlfq]. *)
Theorem enqueue_mlfq_resets_at_level0 :
  forall (q0 : queue_t) (rest : mlfq_levels) (pcb : pcb_t),
    let admitted :=
      mk_pcb (pid pcb) (status pcb) 0 (sockfd pcb) (time_ms pcb) 0
             (last_update_time_ms pcb) 0 in
    enqueue_mlfq (q0 :: rest) pcb = Some ((q0 ++ [admitted]) :: rest)
    /\ priority_level admitted = 0
    /\ ellapsed_time_ms admitted = 0
    /\ slice_start_ms admitted = 0
    /\ forall (now fd id duration : Z) (bq rq : queue_t) (fresh : pcb_t),
        handle_command SCHED_MLFQ now
          (mk_command fd (mk_msg id PROCESS_REQUEST_RUN duration) true
                      (Some fresh))
          bq rq (q0 :: rest)
        = Some (bq, rq,
                (q0 ++ [mk_pcb id TASK_RUNNING 0 fd duration 0
                               (last_update_time_ms fresh) 0]) :: rest).
Proof.
  intros q0 rest pcb admitted.
  split; [reflexivity|].
  repeat (split; [reflexivity|]).
  intros now fd id duration bq rq fresh. reflexivity.
Qed.

Lemma mlfq_pick_all_empty (lv : mlfq_levels) :
  all_empty lv -> mlfq_pick lv = (None, lv).
Proof.
  induction 1 as [|q lv Hq _ IH]; simpl.
  - reflexivity.
  - subst q. simpl. now rewrite IH.
Qed.

Lemma mlfq_pick_first (pre : mlfq_levels) (p : pcb_t) (q : queue_t)
      (rest : mlfq_levels) :
  all_empty pre ->
  mlfq_pick (pre ++ (p :: q) :: rest) = (Some p, pre ++ q :: rest).
Proof.
  induction 1 as [|q0 pre Hq _ IH]; simpl.
  - reflexivity.
  - subst q0. simpl. now rewrite IH.
Qed.

Lemma levels_first_nonempty (lv : mlfq_levels) :
  all_empty lv
  \/ exists pre p q rest,
      lv = pre ++ (p :: q) :: rest /\ all_empty pre.
Proof.
  induction lv as [|q0 lv IH].
  - left. constructor.
  - destruct q0 as [|p q].
    + destruct IH as [IH | (pre & p & q & rest & -> & Hpre)].
      * left. now constructor.
      * right. exists ([] :: pre), p, q, rest. split; [reflexivity|].
        now constructor.
    + right. exists [], p, q, lv. split; [reflexivity | constructor].
Qed.

(** C6: with an empty CPU slot, step 2 of [mlfq_scheduler] visits the
    levels from level 0 downwards and takes the head of the first
    non-empty one, whose slice start becomes the current time: every
    level above the one served is empty, so no block of a lower level is
    dispatched while a higher level has one.  When every level is empty
    nothing is dispatched; an occupied slot is left alone; and the
    scheduler runs this step on the outcome of step 1. *)
Theorem mlfq_dispatch_first_nonempty_level :
  forall (now : Z) (lv : mlfq_levels),
    match mlfq_dispatch now lv None with
    | (lv', Some next) =>
        exists pre p q rest,
          lv = pre ++ (p :: q) :: rest
          /\ all_empty pre
          /\ next = set_slice_start_ms p now
          /\ slice_start_ms next = now
          /\ lv' = pre ++ q :: rest
    | (lv', None) => lv' = lv /\ all_empty lv
    end
    /\ (forall running : pcb_t,
           mlfq_dispatch now lv (Some running) = (lv, Some running))
    /\ (forall cpu : option pcb_t,
           mlfq_scheduler lv now cpu
           = match mlfq_account lv now cpu with
             | Some (lv1, cpu1, eff) =>
                 Some (fst (mlfq_dispatch now lv1 cpu1),
                       snd (mlfq_dispatch now lv1 cpu1), eff)
             | None => None
             end).
Proof.
  intros now lv. split; [|split].
  - unfold mlfq_dispatch.
    destruct (levels_first_nonempty lv)
      as [Hall | (pre & p & q & rest & -> & Hpre)].
    + rewrite (mlfq_pick_all_empty _ Hall). now split.
    + rewrite (mlfq_pick_first _ _ _ _ Hpre).
      exists pre, p, q, rest. repeat split; auto.
  - reflexivity.
  - intros cpu. unfold mlfq_scheduler.
    destruct (mlfq_account lv now cpu) as [[[lv1 cpu1] eff]|];
      [|reflexivity].
    now destruct (mlfq_dispatch now lv1 cpu1).
Qed.

Lemma demote_priority_level (p : pcb_t) :
  0 <= priority_level p <= NUM_QUEUES - 1 ->
  priority_level (demote p)
  = Z.min (priority_level p + 1) (NUM_QUEUES - 1).
Proof.
  unfold demote, NUM_QUEUES. intros H.
  destruct (Z.ltb_spec (priority_level p) (3 - 1)); simpl; lia.
Qed.

Lemma demote_keeps_fields (p : pcb_t) :
  pid (demote p) = pid p
  /\ status (demote p) = status p
  /\ sockfd (demote p) = sockfd p
  /\ time_ms (demote p) = time_ms p
  /\ ellapsed_time_ms (demote p) = ellapsed_time_ms p
  /\ slice_start_ms (demote p) = slice_start_ms p
  /\ last_update_time_ms (demote p) = last_update_time_ms p.
Proof.
  unfold demote.
  destruct (priority_level p <? NUM_QUEUES - 1); simpl; repeat split.
Qed.

Lemma mlfq_apply_priority_level (p : pcb_t) (e : mlfq_event) :
  0 <= priority_level p <= NUM_QUEUES - 1 ->
  priority_level (mlfq_apply p e)
  = if is_expiry e
    then Z.min (priority_level p + 1) (NUM_QUEUES - 1)
    else priority_level p.
Proof.
  intros H. destruct e; simpl; try reflexivity.
  now apply demote_priority_level.
Qed.

Lemma history_priority_level (h : list mlfq_event) :
  forall p : pcb_t,
    0 <= priority_level p <= NUM_QUEUES - 1 ->
    priority_level (fold_left mlfq_apply h p)
    = Z.min (priority_level p + Z.of_nat (expiries h)) (NUM_QUEUES - 1).
Proof.
  unfold expiries.
  induction h as [|e h IH]; intros p Hp.
  - cbn [fold_left filter length]. lia.
  - cbn [fold_left filter].
    assert (He := mlfq_apply_priority_level p e Hp).
    rewrite IH by (rewrite He; destruct (is_expiry e); lia).
    rewrite He. destruct (is_expiry e); cbn [length]; lia.
Qed.

Lemma levels_split_at (lv : mlfq_levels) (i : nat) :
  (i < length lv)%nat ->
  exists pre q rest, lv = pre ++ q :: rest /\ length pre = i.
Proof.
  revert i. induction lv as [|q0 lv IH]; intros i Hi; simpl in Hi.
  - lia.
  - destruct i as [|i].
    + now exists [], q0, lv.
    + destruct (IH i) as (pre & q & rest & -> & Hlen); [lia|].
      exists (q0 :: pre), q, rest. split; [reflexivity|].
      simpl. now rewrite Hlen.
Qed.

(** C5: when the running control block has not finished its burst and
    its quantum has expired, [mlfq_scheduler] lowers its priority level
    by one unless it is already at the last level, appends it to the
    queue of the level it now has, and empties the CPU slot before step 2
    picks the next block.  Hence, over any history of a block admitted at
    level 0, two expiries bring it to level 2 and every further expiry
    leaves it there. *)
Theorem mlfq_quantum_expiry_demotes :
  forall (now : Z) (lv : mlfq_levels) (p : pcb_t),
    length lv = Z.to_nat NUM_QUEUES ->
    0 <= priority_level p <= NUM_QUEUES - 1 ->
    ellapsed_time_ms (account_tick p) < time_ms p ->
    500 <= U32.sub now (slice_start_ms p) ->
    let p' := demote (account_tick p) in
    priority_level p' = Z.min (priority_level p + 1) (NUM_QUEUES - 1)
    /\ ellapsed_time_ms p' = ellapsed_time_ms (account_tick p)
    /\ (exists pre q rest,
           lv = pre ++ q :: rest
           /\ Z.of_nat (length pre) = priority_level p'
           /\ mlfq_account lv now (Some p)
              = Some (pre ++ (q ++ [p']) :: rest, None, [])
           /\ mlfq_scheduler lv now (Some p)
              = Some (fst (mlfq_dispatch now
                             (pre ++ (q ++ [p']) :: rest) None),
                      snd (mlfq_dispatch now
                             (pre ++ (q ++ [p']) :: rest) None),
                      []))
    /\ (forall (h : list mlfq_event) (p0 : pcb_t),
           priority_level p0 = 0 ->
           (expiries h >= 2)%nat ->
           priority_level (fold_left mlfq_apply h p0) = 2).
Proof.
  intros now lv p Hlen Hprio Hrun' Hexp' p'.
  assert (Hrun : burst_complete (account_tick p) = false)
    by (unfold burst_complete; apply geb_false_iff; exact Hrun').
  assert (Hexp : slice_expired now (account_tick p) = true)
    by (unfold slice_expired; apply geb_true_iff; exact Hexp').
  assert (Hp' : priority_level p'
                = Z.min (priority_level p + 1) (NUM_QUEUES - 1)).
  { unfold p'. now rewrite demote_priority_level. }
  split; [exact Hp'|].
  split; [apply demote_keeps_fields|].
  split.
  - destruct (levels_split_at lv (Z.to_nat (priority_level p')))
      as (pre & q & rest & -> & Hpre).
    { rewrite Hlen, Hp'. unfold NUM_QUEUES in *. lia. }
    assert (Hidx : Z.of_nat (length pre) = priority_level p').
    { rewrite Hpre, Hp'. unfold NUM_QUEUES in *. lia. }
    assert (Hacc : mlfq_account (pre ++ q :: rest) now (Some p)
                   = Some (pre ++ (q ++ [p']) :: rest, None, [])).
    { unfold mlfq_account. rewrite Hrun, Hexp. fold p'.
      rewrite <- Hidx, enqueue_level_app; [reflexivity|].
      rewrite Hpre, Hp'. unfold NUM_QUEUES in *. lia. }
    exists pre, q, rest. repeat split; auto.
    unfold mlfq_scheduler. rewrite Hacc.
    now destruct (mlfq_dispatch now (pre ++ (q ++ [p']) :: rest) None).
  - intros h p0 Hp0 Hh.
    rewrite history_priority_level by (unfold NUM_QUEUES; lia).
    rewrite Hp0. unfold NUM_QUEUES. lia.
Qed.

(** ** Shortest job first *)

Lemma remove_queue_elem_app (pre : queue_t) (p : pcb_t) (post : queue_t) :
  remove_queue_elem (pre ++ p :: post) (length pre)
  = (Some p, pre ++ post).
Proof.
  induction pre as [|p0 pre IH]; simpl.
  - reflexivity.
  - now rewrite IH.
Qed.

Lemma sjf_scan_invariant (it : list pcb_t) :
  forall (pre : list pcb_t) (min_elem : nat) (min_pcb : pcb_t),
    nth_error (pre ++ it) min_elem = Some min_pcb ->
    (min_elem <= length pre)%nat ->
    Forall (fun p => time_ms min_pcb <= time_ms p) pre ->
    Forall (fun p => time_ms min_pcb < time_ms p) (firstn min_elem pre) ->
    nth_error (pre ++ it)
              (fst (sjf_scan it (length pre) min_elem min_pcb))
    = Some (snd (sjf_scan it (length pre) min_elem min_pcb))
    /\ Forall (fun p =>
                 time_ms (snd (sjf_scan it (length pre) min_elem min_pcb))
                 <= time_ms p) (pre ++ it)
    /\ Forall (fun p =>
                 time_ms (snd (sjf_scan it (length pre) min_elem min_pcb))
                 < time_ms p)
              (firstn (fst (sjf_scan it (length pre) min_elem min_pcb))
                      (pre ++ it)).
Proof.
  induction it as [|p it IH]; intros pre min_elem min_pcb Hnth Hle Hall Hbefore.
  - simpl. rewrite app_nil_r in *. auto.
  - cbn [sjf_scan].
    assert (Hlen : length (pre ++ [p]) = S (length pre))
      by (rewrite length_app; simpl; lia).
    assert (Hassoc : pre ++ p :: it = (pre ++ [p]) ++ it)
      by (now rewrite <- app_assoc).
    rewrite Hassoc in *. rewrite <- Hlen.
    destruct (Z.ltb_spec (time_ms p) (time_ms min_pcb)) as [Hlt | Hge].
    + apply IH.
      * rewrite <- app_assoc. simpl.
        rewrite nth_error_app2 by lia.
        now rewrite Nat.sub_diag.
      * lia.
      * apply Forall_app. split.
        -- eapply Forall_impl; [|exact Hall]. simpl. intros; lia.
        -- constructor; [lia | constructor].
      * rewrite firstn_app, Nat.sub_diag, firstn_all. simpl.
        rewrite app_nil_r.
        eapply Forall_impl; [|exact Hall]. simpl. intros; lia.
    + apply IH.
      * exact Hnth.
      * lia.
      * apply Forall_app. split; [exact Hall|].
        constructor; [lia | constructor].
      * rewrite firstn_app.
        replace (min_elem - length pre)%nat with 0%nat by lia.
        simpl. now rewrite app_nil_r.
Qed.

(** The element [sjf_scheduler] selects: the first one of least
    [time_ms]. *)
Lemma sjf_scan_selects_first_minimum (head : pcb_t) (tl : queue_t) :
  exists pre m post,
    head :: tl = pre ++ m :: post
    /\ fst (sjf_scan (head :: tl) 0 0 head) = length pre
    /\ Forall (fun p => time_ms m < time_ms p) pre
    /\ Forall (fun p => time_ms m <= time_ms p) post.
Proof.
  assert (H : nth_error ([] ++ head :: tl) 0 = Some head) by reflexivity.
  destruct (sjf_scan_invariant (head :: tl) [] 0%nat head H
              (Nat.le_refl _) (Forall_nil _) (Forall_nil _))
    as (Hnth & Hall & Hbefore).
  clear H. cbn [app length] in *.
  destruct (sjf_scan (head :: tl) 0 0 head) as [k m] eqn:Hscan.
  simpl fst in *. simpl snd in *.
  destruct (nth_error_split _ _ Hnth) as (pre & post & Heq & Hlen).
  exists pre, m, post. rewrite Heq in *.
  split; [reflexivity|]. split; [now rewrite Hlen|].
  split.
  - rewrite <- Hlen, firstn_app, Nat.sub_diag, firstn_all in Hbefore.
    simpl in Hbefore. now rewrite app_nil_r in Hbefore.
  - apply Forall_app in Hall. destruct Hall as [_ Hall].
    now inversion Hall.
Qed.

Lemma sjf_delay_over (flag : bool) (now : Z) :
  flag = true \/ 200 <= now -> negb flag && (now <? 200) = false.
Proof.
  intros [-> | Hnow]; [reflexivity|].
  destruct (Z.ltb_spec now 200); [lia|]. apply andb_false_r.
Qed.

Lemma sjf_scheduler_dispatch (flag : bool) (now : Z) (rq : queue_t)
      (cpu : option pcb_t) :
  fst (account_running now cpu) = None ->
  rq <> [] ->
  negb flag && (now <? 200) = false ->
  exists pre m post,
    rq = pre ++ m :: post
    /\ Forall (fun p => time_ms m < time_ms p) pre
    /\ Forall (fun p => time_ms m <= time_ms p) post
    /\ sjf_scheduler flag now rq cpu
       = (true, pre ++ post, Some m, snd (account_running now cpu)).
Proof.
  intros Hslot Hrq Hdelay.
  destruct rq as [|head tl]; [congruence|].
  destruct (sjf_scan_selects_first_minimum head tl)
    as (pre & m & post & Heq & Hk & Hpre & Hpost).
  exists pre, m, post. repeat split; auto.
  unfold sjf_scheduler.
  destruct (account_running now cpu) as [cpu1 eff]. simpl in Hslot.
  subst cpu1. rewrite Hdelay.
  destruct (sjf_scan (head :: tl) 0 0 head) as [k m'] eqn:Hscan.
  simpl in Hk. subst k. rewrite Heq.
  now rewrite remove_queue_elem_app.
Qed.

(** C3: when step 1 leaves the CPU slot empty, the ready queue is not
    empty and the start-up delay is over (a dispatch has already been
    made, or the clock is at 200 ms or later), [sjf_scheduler] takes out of
    the ready queue the first control block of least [time_ms]: every
    block before it asks for strictly more time and every block after it
    for at least as much; the rest of the queue keeps its order and the
    block goes to the CPU slot.  With the durations 300, 100 and 500 in
    the queue the block of 100 ms is the one dispatched. *)
Theorem sjf_dispatches_first_shortest :
  forall (flag : bool) (now : Z) (rq : queue_t) (cpu : option pcb_t),
    fst (account_running now cpu) = None ->
    rq <> [] ->
    flag = true \/ 200 <= now ->
    (exists pre m post,
        rq = pre ++ m :: post
        /\ Forall (fun p => time_ms m < time_ms p) pre
        /\ Forall (fun p => time_ms m <= time_ms p) post
        /\ sjf_scheduler flag now rq cpu
           = (true, pre ++ post, Some m, snd (account_running now cpu)))
    /\ (forall a b c : pcb_t,
           time_ms a = 300 -> time_ms b = 100 -> time_ms c = 500 ->
           sjf_scheduler flag now [a; b; c] cpu
           = (true, [a; c], Some b, snd (account_running now cpu))).
Proof.
  intros flag now rq cpu Hslot Hrq Hwarm.
  assert (Hdelay := sjf_delay_over flag now Hwarm).
  split.
  - now apply sjf_scheduler_dispatch.
  - intros a b c Ha Hb Hc. unfold sjf_scheduler.
    destruct (account_running now cpu) as [cpu1 eff]. simpl in Hslot.
    subst cpu1. rewrite Hdelay. simpl.
    rewrite Ha, Hb, Hc. reflexivity.
Qed.



(** ** Round robin *)

Lemma burst_complete_false (p : pcb_t) :
  burst_complete p = false <-> ellapsed_time_ms p < time_ms p.
Proof. unfold burst_complete. apply geb_false_iff. Qed.

Lemma burst_complete_true (p : pcb_t) :
  burst_complete p = true <-> time_ms p <= ellapsed_time_ms p.
Proof. unfold burst_complete. apply geb_true_iff. Qed.

Lemma slice_expired_true (now : Z) (p : pcb_t) :
  slice_expired now p = true
  <-> TIME_SLICE <= U32.sub now (slice_start_ms p).
Proof. unfold slice_expired. apply geb_true_iff. Qed.

Lemma slice_expired_false (now : Z) (p : pcb_t) :
  slice_expired now p = false
  <-> U32.sub now (slice_start_ms p) < TIME_SLICE.
Proof. unfold slice_expired. apply geb_false_iff. Qed.

(** The two tests of step 1, settled from what is known of the running
    block once the tick is charged. *)
Ltac settle_tests :=
  repeat match goal with
  | H : ellapsed_time_ms (account_tick ?p) < time_ms ?p
    |- context [burst_complete (account_tick ?p)] =>
      rewrite (proj2 (burst_complete_false (account_tick p)) H)
  | H : time_ms ?p <= ellapsed_time_ms (account_tick ?p)
    |- context [burst_complete (account_tick ?p)] =>
      rewrite (proj2 (burst_complete_true (account_tick p)) H)
  | H : TIME_SLICE <= U32.sub ?now (slice_start_ms ?p)
    |- context [slice_expired ?now (account_tick ?p)] =>
      rewrite (proj2 (slice_expired_true now (account_tick p)) H)
  | H : U32.sub ?now (slice_start_ms ?p) < TIME_SLICE
    |- context [slice_expired ?now (account_tick ?p)] =>
      rewrite (proj2 (slice_expired_false now (account_tick p)) H)
  end.

Lemma rr_scheduler_steps (now : Z) (rq : queue_t) (cpu : option pcb_t) :
  rr_scheduler now rq cpu
  = (fst (rr_dispatch now (fst (fst (rr_account now rq cpu)))
                      (snd (fst (rr_account now rq cpu)))),
     snd (rr_dispatch now (fst (fst (rr_account now rq cpu)))
                      (snd (fst (rr_account now rq cpu)))),
     snd (rr_account now rq cpu)).
Proof.
  unfold rr_scheduler.
  destruct (rr_account now rq cpu) as [[rq1 cpu1] eff]. simpl.
  now destruct (rr_dispatch now rq1 cpu1).
Qed.




Lemma clock_after_succ (now : Z) (n : nat) :
  clock_after (U32.add now TICKS_MS) n = clock_after now (S n).
Proof.
  unfold clock_after. symmetry.
  exact (Nat.iter_succ_r n Z (fun t => U32.add t TICKS_MS) now).
Qed.


Lemma set_ellapsed_time_ms_twice (p : pcb_t) (a b : Z) :
  set_ellapsed_time_ms (set_ellapsed_time_ms p a) b
  = set_ellapsed_time_ms p b.
Proof. reflexivity. Qed.

Lemma account_tick_no_carry (p : pcb_t) :
  0 <= ellapsed_time_ms p + TICKS_MS < U32.modulus ->
  account_tick p
  = set_ellapsed_time_ms p (ellapsed_time_ms p + TICKS_MS).
Proof.
  intros H. unfold account_tick. now rewrite U32_add_no_carry.
Qed.

Lemma rr_scheduler_hold (now : Z) (rq : queue_t) (p : pcb_t) :
  ellapsed_time_ms (account_tick p) < time_ms p ->
  U32.sub now (slice_start_ms p) < TIME_SLICE ->
  rr_scheduler now rq (Some p) = (rq, Some (account_tick p), []).
Proof.
  intros Hrun Hslice. unfold rr_scheduler, rr_account.
  settle_tests. reflexivity.
Qed.







Lemma check_new_commands_rr (now : Z) (cs : list command) :
  forall (bq rq : queue_t) (lv : mlfq_levels),
  exists bq' : queue_t,
    check_new_commands SCHED_RR now cs bq rq lv
    = Some (bq', rq ++ run_arrivals cs, lv).
Proof.
  induction cs as [|c cs IH]; intros bq rq lv.
  - exists bq. simpl. now rewrite app_nil_r.
  - cbn [check_new_commands run_arrivals]. unfold handle_command.
    destruct (cmd_ack_written c); cbn [negb].
    + destruct (request (cmd_msg c)); try apply IH.
      * destruct (new_pcb _ _ _ _) as [p|]; [|apply IH].
        destruct (IH bq (enqueue_pcb rq
                    (set_slice_start_ms
                       (set_ellapsed_time_ms (set_status p TASK_RUNNING) 0)
                       0)) lv) as [bq' E].
        exists bq'. rewrite E. unfold enqueue_pcb.
        now rewrite <- app_assoc.
      * destruct (new_pcb _ _ _ _) as [p|]; apply IH.
    + apply IH.
Qed.

(** One iteration of the loop of [main] under round robin is one step of
    [rr_run], for the blocks admitted at that tick. *)
Lemma main_loop_body_rr (cs : list command) (st : simulator) :
  exists (bq' : queue_t) (eff_b : list effect),
    main_loop_body SCHED_RR cs st
    = Some
        (mk_simulator
           (fst (fst (rr_scheduler (current_time_ms st)
                                   (ready_queue st ++ run_arrivals cs)
                                   (cpu_task st))))
           bq' (levels st)
           (snd (fst (rr_scheduler (current_time_ms st)
                                   (ready_queue st ++ run_arrivals cs)
                                   (cpu_task st))))
           (first_dispatch_done st)
           (U32.add (current_time_ms st) TICKS_MS),
         eff_b ++ snd (rr_scheduler (current_time_ms st)
                                    (ready_queue st ++ run_arrivals cs)
                                    (cpu_task st))).
Proof.
  unfold main_loop_body.
  destruct (check_new_commands_rr (current_time_ms st) cs
              (blocked_queue st) (ready_queue st) (levels st)) as [bq E].
  rewrite E.
  destruct (check_blocked_queue bq (current_time_ms st)) as [bq' eff_b].
  exists bq', eff_b. unfold run_scheduler. simpl.
  now destruct (rr_scheduler (current_time_ms st)
                             (ready_queue st ++ run_arrivals cs) (cpu_task st))
    as [[rq' cpu'] eff].
Qed.


(** ** Admission *)



(** ** Completion of a burst *)

Lemma account_running_some (now : Z) (p : pcb_t) :
  account_running now (Some p)
  = if burst_complete (account_tick p)
    then (None, notify_and_free now (account_tick p))
    else (Some (account_tick p), []).
Proof. reflexivity. Qed.

Lemma fifo_scheduler_effects (now : Z) (rq : queue_t)
      (cpu : option pcb_t) :
  snd (fifo_scheduler now rq cpu) = snd (account_running now cpu).
Proof.
  unfold fifo_scheduler.
  destruct (account_running now cpu) as [[p|] eff]; simpl.
  - reflexivity.
  - now destruct (dequeue_pcb rq).
Qed.

Lemma sjf_scheduler_effects (flag : bool) (now : Z) (rq : queue_t)
      (cpu : option pcb_t) :
  snd (sjf_scheduler flag now rq cpu) = snd (account_running now cpu).
Proof.
  unfold sjf_scheduler.
  destruct (account_running now cpu) as [cpu1 eff]; simpl.
  destruct (negb flag && (now <? 200)); [reflexivity|].
  destruct cpu1 as [p|]; [reflexivity|].
  destruct rq as [|head tl]; [reflexivity|].
  destruct (sjf_scan (head :: tl) 0 0 head) as [k m].
  now destruct (remove_queue_elem (head :: tl) k) as [[r|] rq'].
Qed.

Lemma rr_scheduler_effects (now : Z) (rq : queue_t) (p : pcb_t) :
  snd (rr_scheduler now rq (Some p))
  = snd (account_running now (Some p)).
Proof.
  rewrite rr_scheduler_steps, account_running_some.
  unfold rr_account.
  destruct (burst_complete (account_tick p)); [reflexivity|].
  destruct (slice_expired now (account_tick p)); [|reflexivity].
  now destruct rq.
Qed.




(** ** Elapsed time: bounds and conservation *)

Lemma elapsed_bounded_by_accounting (l l' : list pcb_t) :
  Permutation (map accounting l') (map accounting l) ->
  Forall elapsed_bounded l -> Forall elapsed_bounded l'.
Proof.
  set (P := fun a : Z * task_status_en * Z * Z * Z * Z =>
              0 <= snd (fst a) <= snd (fst (fst a))
              /\ snd (fst (fst a)) < U32.modulus).
  assert (HP : forall k, Forall elapsed_bounded k
                         <-> Forall P (map accounting k)).
  { intros k. rewrite Forall_map.
    split; apply Forall_impl; intros p; unfold P, elapsed_bounded;
      simpl; tauto. }
  intros Hperm H. apply HP. apply HP in H.
  eapply Permutation_Forall; [|exact H]. now apply Permutation_sym.
Qed.

Lemma account_tick_bounded (p : pcb_t) :
  elapsed_bounded p ->
  burst_complete (account_tick p) = false ->
  elapsed_bounded (account_tick p).
Proof.
  intros [He Ht] Hrun. apply burst_complete_false in Hrun.
  unfold elapsed_bounded. simpl in *.
  pose proof (U32_wrap_range (ellapsed_time_ms p + TICKS_MS)) as Hr.
  unfold U32.in_range in Hr. unfold U32.add in *. lia.
Qed.

Lemma account_running_bounded (now : Z) (cpu : option pcb_t) :
  Forall elapsed_bounded (cpu_slot cpu) ->
  Forall elapsed_bounded (cpu_slot (fst (account_running now cpu))).
Proof.
  destruct cpu as [p|]; [|intros _; constructor].
  intros H. inversion H as [|? ? Hp _]; subst.
  rewrite account_running_some.
  destruct (burst_complete (account_tick p)) eqn:E; simpl.
  - constructor.
  - constructor; [now apply account_tick_bounded | constructor].
Qed.

Lemma fifo_scheduler_conserves (now : Z) (rq : queue_t)
      (cpu : option pcb_t) :
  cpu_slot (snd (fst (fifo_scheduler now rq cpu)))
           ++ fst (fst (fifo_scheduler now rq cpu))
  = cpu_slot (fst (account_running now cpu)) ++ rq.
Proof.
  unfold fifo_scheduler.
  destruct (account_running now cpu) as [[p|] eff]; simpl.
  - reflexivity.
  - now destruct rq.
Qed.

Lemma remove_queue_elem_perm (q : queue_t) :
  forall k : nat,
    Permutation (cpu_slot (fst (remove_queue_elem q k))
                          ++ snd (remove_queue_elem q k)) q.
Proof.
  induction q as [|p q IH]; intros k; simpl.
  - constructor.
  - destruct k as [|k]; simpl.
    + apply Permutation_refl.
    + specialize (IH k).
      destruct (remove_queue_elem q k) as [[r|] q']; simpl in *.
      * eapply perm_trans; [apply perm_swap|]. now constructor.
      * now constructor.
Qed.

Lemma sjf_scheduler_conserves (flag : bool) (now : Z) (rq : queue_t)
      (cpu : option pcb_t) :
  Permutation
    (cpu_slot (snd (fst (sjf_scheduler flag now rq cpu)))
              ++ snd (fst (fst (sjf_scheduler flag now rq cpu))))
    (cpu_slot (fst (account_running now cpu)) ++ rq).
Proof.
  unfold sjf_scheduler.
  destruct (account_running now cpu) as [cpu1 eff]; simpl.
  destruct (negb flag && (now <? 200)); [apply Permutation_refl|].
  destruct cpu1 as [p|]; [apply Permutation_refl|].
  destruct rq as [|head tl]; [apply Permutation_refl|].
  destruct (sjf_scan (head :: tl) 0 0 head) as [k m].
  pose proof (remove_queue_elem_perm (head :: tl) k) as H.
  destruct (remove_queue_elem (head :: tl) k) as [[r|] rq']; exact H.
Qed.

Lemma rr_scheduler_conserves (now : Z) (rq : queue_t)
      (cpu : option pcb_t) :
  Permutation
    (map accounting
         (cpu_slot (snd (fst (rr_scheduler now rq cpu)))
                   ++ fst (fst (rr_scheduler now rq cpu))))
    (map accounting (cpu_slot (fst (account_running now cpu)) ++ rq)).
Proof.
  rewrite rr_scheduler_steps. unfold rr_account.
  destruct cpu as [p|]; [rewrite account_running_some|]; simpl.
  - destruct (burst_complete (account_tick p)); simpl.
    + destruct rq; apply Permutation_refl.
    + destruct (slice_expired now (account_tick p)); simpl.
      * destruct rq as [|h t]; simpl; [apply Permutation_refl|].
        rewrite map_app. simpl.
        change (accounting (set_slice_start_ms h now)) with (accounting h).
        apply Permutation_sym.
        exact (Permutation_cons_append
                 (accounting h :: map accounting t)
                 (accounting (account_tick p))).
      * apply Permutation_refl.
  - destruct rq; apply Permutation_refl.
Qed.

Lemma enqueue_at_spec (lv : mlfq_levels) :
  forall (i : nat) (p : pcb_t) (lv' : mlfq_levels),
    enqueue_at lv i p = Some lv' ->
    Permutation (concat lv') (p :: concat lv)
    /\ length lv' = length lv.
Proof.
  induction lv as [|q lv IH]; intros i p lv' H; simpl in H.
  - discriminate.
  - destruct i as [|i].
    + inversion H; subst. simpl. split; [|reflexivity].
      unfold enqueue_pcb. rewrite <- app_assoc. simpl.
      apply Permutation_sym, Permutation_middle.
    + destruct (enqueue_at lv i p) as [lv''|] eqn:E; [|discriminate].
      inversion H; subst. destruct (IH _ _ _ E) as [Hperm Hlen].
      simpl. split; [|now rewrite Hlen].
      eapply perm_trans; [apply Permutation_app_head; exact Hperm|].
      apply Permutation_sym, Permutation_middle.
Qed.

Lemma enqueue_at_total (lv : mlfq_levels) :
  forall (i : nat) (p : pcb_t),
    (i < length lv)%nat -> exists lv', enqueue_at lv i p = Some lv'.
Proof.
  induction lv as [|q lv IH]; intros i p Hi; simpl in *.
  - lia.
  - destruct i as [|i]; [eauto|].
    destruct (IH i p) as [lv' ->]; [lia | eauto].
Qed.

Lemma enqueue_level_total (lv : mlfq_levels) (p : pcb_t) :
  length lv = Z.to_nat NUM_QUEUES ->
  level_in_range p ->
  exists lv',
    enqueue_level lv (priority_level p) p = Some lv'
    /\ Permutation (concat lv') (p :: concat lv)
    /\ length lv' = length lv.
Proof.
  intros Hlen Hp. unfold level_in_range, NUM_QUEUES in *.
  unfold enqueue_level, NUM_QUEUES.
  replace (0 <=? priority_level p) with true
    by (symmetry; apply Z.leb_le; lia).
  replace (priority_level p <? 3) with true
    by (symmetry; apply Z.ltb_lt; lia).
  simpl andb. cbv iota.
  destruct (enqueue_at_total lv (Z.to_nat (priority_level p)) p)
    as [lv' E]; [lia|].
  exists lv'. split; [exact E|]. eapply enqueue_at_spec. exact E.
Qed.

Lemma mlfq_pick_spec (lv : mlfq_levels) :
  concat lv = cpu_slot (fst (mlfq_pick lv)) ++ concat (snd (mlfq_pick lv))
  /\ length (snd (mlfq_pick lv)) = length lv.
Proof.
  induction lv as [|q lv [IH1 IH2]]; simpl.
  - split; reflexivity.
  - destruct q as [|p q]; simpl.
    + destruct (mlfq_pick lv) as [next lv']. simpl in *.
      split; [exact IH1 | now rewrite IH2].
    + split; reflexivity.
Qed.

Lemma level_in_range_kept (p : pcb_t) (now : Z) :
  level_in_range p ->
  level_in_range (account_tick p)
  /\ level_in_range (set_slice_start_ms p now)
  /\ level_in_range (demote p).
Proof.
  intros H. split; [exact H|]. split; [exact H|].
  unfold level_in_range in *. rewrite demote_priority_level by exact H.
  unfold NUM_QUEUES in *. lia.
Qed.

Lemma accounting_demote (p : pcb_t) :
  accounting (demote p) = accounting p.
Proof.
  unfold demote.
  now destruct (priority_level p <? NUM_QUEUES - 1).
Qed.

Lemma mlfq_dispatch_spec (now : Z) (lv : mlfq_levels)
      (cpu : option pcb_t) :
  length (fst (mlfq_dispatch now lv cpu)) = length lv
  /\ map accounting
         (cpu_slot (snd (mlfq_dispatch now lv cpu))
                   ++ concat (fst (mlfq_dispatch now lv cpu)))
     = map accounting (cpu_slot cpu ++ concat lv)
  /\ (Forall level_in_range (cpu_slot cpu ++ concat lv) ->
      Forall level_in_range
             (cpu_slot (snd (mlfq_dispatch now lv cpu))
                       ++ concat (fst (mlfq_dispatch now lv cpu)))).
Proof.
  unfold mlfq_dispatch. destruct cpu as [p|]; simpl.
  - repeat split; auto.
  - destruct (mlfq_pick_spec lv) as [Hcat Hlen].
    destruct (mlfq_pick lv) as [[next|] lv']; simpl in *.
    + split; [exact Hlen|]. rewrite Hcat. split; [reflexivity|].
      intros H. inversion H; subst. constructor; assumption.
    + split; [exact Hlen|]. rewrite Hcat. split; auto.
Qed.

Lemma mlfq_account_spec (lv : mlfq_levels) (now : Z)
      (cpu : option pcb_t) :
  length lv = Z.to_nat NUM_QUEUES ->
  Forall level_in_range (cpu_slot cpu) ->
  exists lv1 cpu1,
    mlfq_account lv now cpu
    = Some (lv1, cpu1, snd (account_running now cpu))
    /\ length lv1 = length lv
    /\ Permutation
         (map accounting (cpu_slot cpu1 ++ concat lv1))
         (map accounting
              (cpu_slot (fst (account_running now cpu)) ++ concat lv))
    /\ (Forall level_in_range (concat lv) ->
        Forall level_in_range (cpu_slot cpu1 ++ concat lv1)).
Proof.
  intros Hlen Hcpu. destruct cpu as [p|].
  - inversion Hcpu as [|? ? Hp _]; subst.
    rewrite account_running_some. unfold mlfq_account.
    destruct (burst_complete (account_tick p)).
    + exists lv, None. simpl. repeat split; auto.
    + destruct (slice_expired now (account_tick p)).
      * destruct (level_in_range_kept (account_tick p) now)
          as (_ & _ & Hd);
          [now apply level_in_range_kept|].
        destruct (enqueue_level_total lv _ Hlen Hd)
          as (lv' & E & Hperm & Hlen').
        rewrite E. exists lv', None. simpl.
        split; [reflexivity|]. split; [exact Hlen'|]. split.
        -- rewrite <- (accounting_demote (account_tick p)).
           change (accounting (demote (account_tick p))
                     :: map accounting (concat lv))
             with (map accounting
                       (demote (account_tick p) :: concat lv)).
           now apply Permutation_map.
        -- intros H. eapply Permutation_Forall;
             [apply Permutation_sym; exact Hperm|].
           now constructor.
      * exists lv, (Some (account_tick p)). simpl.
        split; [reflexivity|]. split; [reflexivity|].
        split; [apply Permutation_refl|].
        intros H. constructor; [exact Hp | exact H].
  - exists lv, None. simpl. repeat split; auto.
Qed.

Lemma mlfq_scheduler_spec (lv : mlfq_levels) (now : Z)
      (cpu : option pcb_t) :
  length lv = Z.to_nat NUM_QUEUES ->
  Forall level_in_range (cpu_slot cpu ++ concat lv) ->
  exists lv' cpu',
    mlfq_scheduler lv now cpu
    = Some (lv', cpu', snd (account_running now cpu))
    /\ length lv' = length lv
    /\ Permutation
         (map accounting (cpu_slot cpu' ++ concat lv'))
         (map accounting
              (cpu_slot (fst (account_running now cpu)) ++ concat lv))
    /\ Forall level_in_range (cpu_slot cpu' ++ concat lv').
Proof.
  intros Hlen Hall. apply Forall_app in Hall. destruct Hall as [Hc Hl].
  destruct (mlfq_account_spec lv now cpu Hlen Hc)
    as (lv1 & cpu1 & E & Hlen1 & Hperm & Hrange).
  unfold mlfq_scheduler. rewrite E.
  destruct (mlfq_dispatch_spec now lv1 cpu1) as (Hlen2 & Hacc & Hr2).
  destruct (mlfq_dispatch now lv1 cpu1) as [lv' cpu']. simpl in *.
  exists lv', cpu'. split; [reflexivity|].
  split; [congruence|]. split; [now rewrite Hacc|]. auto.
Qed.

Lemma held_levels_swap (a r l b : list pcb_t) :
  Permutation (a ++ r ++ l ++ b) ((a ++ l) ++ r ++ b).
Proof.
  rewrite <- app_assoc. apply Permutation_app_head.
  apply Permutation_app_swap_app.
Qed.

Lemma survivors_bounded (now : Z) (st : simulator) :
  Forall elapsed_bounded (held st) ->
  Forall elapsed_bounded
         (cpu_slot (fst (account_running now (cpu_task st)))
                   ++ ready_queue st ++ concat (levels st)
                   ++ blocked_queue st).
Proof.
  unfold held. intros H. apply Forall_app in H. destruct H as [Hc Hr].
  apply Forall_app. split; [now apply account_running_bounded | exact Hr].
Qed.

(** One call of the active policy on a sound state: it is defined, it
    performs exactly the writes and frees of step 1, it leaves the clock
    and the blocked queue alone, and the control blocks held afterwards
    are those held before, the running one charged one tick and dropped
    if its burst is over; the state is sound again. *)
Lemma run_scheduler_sound (scheduler_type : scheduler_en)
      (st : simulator) :
  scheduler_type <> NULL_SCHEDULER ->
  sound scheduler_type st ->
  exists st',
    run_scheduler scheduler_type st
    = Some (st', snd (account_running (current_time_ms st)
                                      (cpu_task st)))
    /\ Permutation
         (map accounting (held st'))
         (map accounting
              (cpu_slot (fst (account_running (current_time_ms st)
                                              (cpu_task st)))
                        ++ ready_queue st ++ concat (levels st)
                        ++ blocked_queue st))
    /\ sound scheduler_type st'
    /\ current_time_ms st' = current_time_ms st
    /\ blocked_queue st' = blocked_queue st.
Proof.
  intros Hsched (Hb & Hlen & Hlv).
  destruct st as [rq bq lv cpu flag now]. simpl in *.
  assert (Hfin : forall st' : simulator,
             Permutation
               (map accounting (held st'))
               (map accounting
                    (cpu_slot (fst (account_running now cpu))
                              ++ rq ++ concat lv ++ bq)) ->
             Forall elapsed_bounded (held st')).
  { intros st' Hperm. eapply elapsed_bounded_by_accounting; [exact Hperm|].
    exact (survivors_bounded now (mk_simulator rq bq lv cpu flag now) Hb). }
  destruct scheduler_type; try congruence.
  - (* FIFO *)
    unfold run_scheduler. simpl.
    pose proof (fifo_scheduler_conserves now rq cpu) as Hc.
    pose proof (fifo_scheduler_effects now rq cpu) as He.
    destruct (fifo_scheduler now rq cpu) as [[rq' cpu'] eff].
    simpl in *. subst eff. eexists. split; [reflexivity|].
    assert (Hperm : Permutation
               (map accounting (cpu_slot cpu' ++ rq' ++ concat lv ++ bq))
               (map accounting
                    (cpu_slot (fst (account_running now cpu))
                              ++ rq ++ concat lv ++ bq))).
    { rewrite !app_assoc, Hc. apply Permutation_refl. }
    split; [exact Hperm|]. split; [|split; reflexivity].
    split; [exact (Hfin (mk_simulator rq' bq lv cpu' flag now) Hperm)|].
    split; [exact Hlen | discriminate].
  - (* SJF *)
    unfold run_scheduler. simpl.
    pose proof (sjf_scheduler_conserves flag now rq cpu) as Hc.
    pose proof (sjf_scheduler_effects flag now rq cpu) as He.
    destruct (sjf_scheduler flag now rq cpu) as [[[flag' rq'] cpu'] eff].
    simpl in *. subst eff. eexists. split; [reflexivity|].
    assert (Hperm : Permutation
               (map accounting (cpu_slot cpu' ++ rq' ++ concat lv ++ bq))
               (map accounting
                    (cpu_slot (fst (account_running now cpu))
                              ++ rq ++ concat lv ++ bq))).
    { apply Permutation_map. rewrite !app_assoc.
      apply Permutation_app_tail, Permutation_app_tail. exact Hc. }
    split; [exact Hperm|]. split; [|split; reflexivity].
    split; [exact (Hfin (mk_simulator rq' bq lv cpu' flag' now) Hperm)|].
    split; [exact Hlen | discriminate].
  - (* RR *)
    unfold run_scheduler. simpl.
    pose proof (rr_scheduler_conserves now rq cpu) as Hc.
    assert (He : snd (rr_scheduler now rq cpu)
                 = snd (account_running now cpu)).
    { destruct cpu as [p|]; [apply rr_scheduler_effects|].
      now destruct rq. }
    destruct (rr_scheduler now rq cpu) as [[rq' cpu'] eff].
    simpl in *. subst eff. eexists. split; [reflexivity|].
    assert (Hperm : Permutation
               (map accounting (cpu_slot cpu' ++ rq' ++ concat lv ++ bq))
               (map accounting
                    (cpu_slot (fst (account_running now cpu))
                              ++ rq ++ concat lv ++ bq))).
    { rewrite (app_assoc (cpu_slot cpu')),
        (app_assoc (cpu_slot (fst (account_running now cpu)))).
      rewrite (map_app accounting (cpu_slot cpu' ++ rq')),
        (map_app accounting
                 (cpu_slot (fst (account_running now cpu)) ++ rq)).
      apply Permutation_app_tail. exact Hc. }
    split; [exact Hperm|]. split; [|split; reflexivity].
    split; [exact (Hfin (mk_simulator rq' bq lv cpu' flag now) Hperm)|].
    split; [exact Hlen | discriminate].
  - (* MLFQ *)
    unfold run_scheduler. simpl.
    destruct (mlfq_scheduler_spec lv now cpu Hlen (Hlv eq_refl))
      as (lv' & cpu' & E & Hlen' & Hc & Hrange).
    rewrite E. eexists. split; [reflexivity|]. simpl.
    assert (Hperm : Permutation
               (map accounting (cpu_slot cpu' ++ rq ++ concat lv' ++ bq))
               (map accounting
                    (cpu_slot (fst (account_running now cpu))
                              ++ rq ++ concat lv ++ bq))).
    { eapply perm_trans;
        [apply Permutation_map, held_levels_swap|].
      eapply perm_trans;
        [|apply Permutation_map, Permutation_sym, held_levels_swap].
      rewrite (map_app accounting (cpu_slot cpu' ++ concat lv')),
        (map_app accounting
                 (cpu_slot (fst (account_running now cpu)) ++ concat lv)).
      apply Permutation_app_tail. exact Hc. }
    split; [exact Hperm|]. split; [|split; reflexivity].
    split; [exact (Hfin (mk_simulator rq bq lv' cpu' flag now) Hperm)|].
    split; [exact (eq_trans Hlen' Hlen) | intros _; exact Hrange].
Qed.

Lemma sound_initial (scheduler_type : scheduler_en) :
  sound scheduler_type initial_simulator.
Proof.
  unfold sound, held. simpl. split; [constructor|].
  split; [reflexivity|]. intros _. constructor.
Qed.

Lemma sound_fields (scheduler_type : scheduler_en) (st st' : simulator) :
  ready_queue st' = ready_queue st ->
  blocked_queue st' = blocked_queue st ->
  levels st' = levels st ->
  cpu_task st' = cpu_task st ->
  sound scheduler_type st -> sound scheduler_type st'.
Proof.
  unfold sound, held. intros -> -> -> ->. auto.
Qed.

Lemma enqueue_mlfq_spec (lv lv' : mlfq_levels) (p : pcb_t) :
  enqueue_mlfq lv p = Some lv' ->
  Permutation
    (concat lv')
    (set_slice_start_ms
       (set_ellapsed_time_ms (set_priority_level p 0) 0) 0 :: concat lv)
  /\ length lv' = length lv.
Proof.
  unfold enqueue_mlfq, enqueue_level.
  change ((0 <=? 0) && (0 <? NUM_QUEUES)) with true. cbv iota.
  apply enqueue_at_spec.
Qed.

Lemma handle_command_sound (scheduler_type : scheduler_en) (now : Z)
      (c : command) (st : simulator) (bq' rq' : queue_t)
      (lv' : mlfq_levels) :
  command_ok c ->
  sound scheduler_type st ->
  handle_command scheduler_type now c (blocked_queue st) (ready_queue st)
                 (levels st) = Some (bq', rq', lv') ->
  sound scheduler_type
        (mk_simulator rq' bq' lv' (cpu_task st) (first_dispatch_done st)
                      (current_time_ms st)).
Proof.
  intros Hc Hs H.
  assert (Hsame : sound scheduler_type
            (mk_simulator (ready_queue st) (blocked_queue st) (levels st)
                          (cpu_task st) (first_dispatch_done st)
                          (current_time_ms st)))
    by (eapply sound_fields; [..|exact Hs]; reflexivity).
  unfold handle_command in H.
  destruct (cmd_ack_written c); cbn [negb] in H;
    [|inversion H; subst; exact Hsame].
  unfold command_ok, U32.in_range in Hc.
  destruct (request (cmd_msg c));
    try (inversion H; subst; exact Hsame).
  - (* RUN *)
    destruct (cmd_fresh c) as [b|]; cbn [new_pcb] in H;
      [|inversion H; subst; exact Hsame].
    destruct Hs as (Hb & Hlen & Hlv). unfold held in Hb.
    rewrite !Forall_app in Hb. destruct Hb as (Hb1 & Hb2 & Hb3 & Hb4).
    destruct scheduler_type;
      try (inversion H; subst; unfold sound, held, enqueue_pcb; simpl;
           rewrite !Forall_app;
           repeat split; auto; try discriminate;
           constructor; [|constructor];
           unfold elapsed_bounded; simpl; lia).
    match type of H with
    | context [enqueue_mlfq ?l ?q] =>
        destruct (enqueue_mlfq l q) as [lv1|] eqn:E; [|discriminate]
    end.
    inversion H; subst.
    destruct (enqueue_mlfq_spec _ _ _ E) as [Hperm Hlen1].
    unfold sound, held. simpl. rewrite !Forall_app.
    split; [|split].
    + repeat split; auto.
      eapply Permutation_Forall; [apply Permutation_sym; exact Hperm|].
      constructor; [|exact Hb3].
      unfold elapsed_bounded. simpl. lia.
    + now rewrite Hlen1.
    + intros _. specialize (Hlv eq_refl).
      rewrite Forall_app in Hlv. split; [exact (proj1 Hlv)|].
      eapply Permutation_Forall; [apply Permutation_sym; exact Hperm|].
      constructor; [|exact (proj2 Hlv)].
      unfold level_in_range, NUM_QUEUES. simpl. lia.
  - (* BLOCK *)
    destruct (cmd_fresh c) as [b|]; cbn [new_pcb] in H;
      [|inversion H; subst; exact Hsame].
    inversion H; subst.
    destruct Hs as (Hb & Hlen & Hlv). unfold held in Hb.
    rewrite !Forall_app in Hb. destruct Hb as (Hb1 & Hb2 & Hb3 & Hb4).
    unfold sound, held, enqueue_pcb. simpl.
    split; [|split; [exact Hlen | exact Hlv]].
    rewrite !Forall_app. repeat split; auto.
    constructor; [|constructor].
    unfold elapsed_bounded. simpl. lia.
Qed.

Lemma check_new_commands_sound (scheduler_type : scheduler_en) (now : Z)
      (cs : list command) :
  forall (st : simulator) (bq' rq' : queue_t) (lv' : mlfq_levels),
    Forall command_ok cs ->
    sound scheduler_type st ->
    check_new_commands scheduler_type now cs (blocked_queue st)
                       (ready_queue st) (levels st)
    = Some (bq', rq', lv') ->
    sound scheduler_type
          (mk_simulator rq' bq' lv' (cpu_task st) (first_dispatch_done st)
                        (current_time_ms st)).
Proof.
  induction cs as [|c cs IH]; intros st bq' rq' lv' Hcs Hs H.
  - simpl in H. inversion H; subst.
    eapply sound_fields; [..|exact Hs]; reflexivity.
  - inversion Hcs as [|? ? Hc Hcs']; subst. cbn [check_new_commands] in H.
    destruct (handle_command scheduler_type now c (blocked_queue st)
                             (ready_queue st) (levels st))
      as [[[bq1 rq1] lv1]|] eqn:E; [|discriminate].
    pose proof (handle_command_sound _ _ _ _ _ _ _ Hc Hs E) as Hs1.
    exact (IH _ _ _ _ Hcs' Hs1 H).
Qed.

Lemma check_blocked_queue_bounded (bq : queue_t) (now : Z) :
  Forall elapsed_bounded bq ->
  Forall elapsed_bounded (fst (check_blocked_queue bq now)).
Proof.
  induction 1 as [|p bq Hp _ IH]; simpl.
  - constructor.
  - destruct (check_blocked_queue bq now) as [rest eff]. simpl in IH.
    destruct (status p); simpl; try (constructor; assumption).
    destruct (burst_complete (account_tick p)) eqn:E; simpl.
    + exact IH.
    + constructor; [now apply account_tick_bounded | exact IH].
Qed.

Lemma before_policy_sound (scheduler_type : scheduler_en)
      (cs : list command) (st : simulator) (bq rq : queue_t)
      (lv : mlfq_levels) :
  Forall command_ok cs ->
  sound scheduler_type st ->
  check_new_commands scheduler_type (current_time_ms st) cs
                     (blocked_queue st) (ready_queue st) (levels st)
  = Some (bq, rq, lv) ->
  sound scheduler_type
        (mk_simulator rq
                      (fst (check_blocked_queue bq (current_time_ms st)))
                      lv (cpu_task st) (first_dispatch_done st)
                      (current_time_ms st)).
Proof.
  intros Hcs Hs H.
  destruct (check_new_commands_sound _ _ _ _ _ _ _ Hcs Hs H)
    as (Hb & Hlen & Hlv).
  unfold sound, held in *. simpl in *.
  split; [|split; assumption].
  rewrite !Forall_app in *. destruct Hb as (H1 & H2 & H3 & H4).
  repeat split; auto. now apply check_blocked_queue_bounded.
Qed.

Lemma main_loop_body_sound (scheduler_type : scheduler_en)
      (cs : list command) (st st' : simulator) (eff : list effect) :
  Forall command_ok cs ->
  sound scheduler_type st ->
  main_loop_body scheduler_type cs st = Some (st', eff) ->
  sound scheduler_type st'.
Proof.
  intros Hcs Hs H. unfold main_loop_body in H.
  destruct (check_new_commands scheduler_type (current_time_ms st) cs
              (blocked_queue st) (ready_queue st) (levels st))
    as [[[bq rq] lv]|] eqn:E; [|discriminate].
  pose proof (before_policy_sound _ _ _ _ _ _ Hcs Hs E) as Hs0.
  destruct (check_blocked_queue bq (current_time_ms st)) as [bq0 effb].
  simpl fst in Hs0.
  destruct (run_scheduler scheduler_type _) as [[st1 effs]|] eqn:Er;
    [|discriminate].
  inversion H; subst.
  assert (Hs1 : sound scheduler_type st1).
  { destruct scheduler_type.
    - simpl in Er. inversion Er; subst. exact Hs0.
    - destruct (run_scheduler_sound SCHED_FIFO _ ltac:(discriminate) Hs0)
        as (st2 & E2 & _ & Hs2 & _). congruence.
    - destruct (run_scheduler_sound SCHED_SJF _ ltac:(discriminate) Hs0)
        as (st2 & E2 & _ & Hs2 & _). congruence.
    - destruct (run_scheduler_sound SCHED_RR _ ltac:(discriminate) Hs0)
        as (st2 & E2 & _ & Hs2 & _). congruence.
    - destruct (run_scheduler_sound SCHED_MLFQ _ ltac:(discriminate) Hs0)
        as (st2 & E2 & _ & Hs2 & _). congruence. }
  eapply sound_fields; [..|exact Hs1]; reflexivity.
Qed.

Lemma reachable_sound (scheduler_type : scheduler_en) (st : simulator) :
  reachable scheduler_type st -> sound scheduler_type st.
Proof.
  induction 1 as [|st cs st' eff _ IH Hcs Hbody].
  - apply sound_initial.
  - eapply main_loop_body_sound; eassumption.
Qed.



(** ** A burst running alone under FIFO *)




(** * Further properties of the sources *)

(** ** Choice of the policy *)

Lemma get_scheduler_of_name (name : string) (s : scheduler_en) :
  get_scheduler (Some name) = s ->
  s <> NULL_SCHEDULER ->
  scheduler_name s = Some name.
Proof.
  unfold get_scheduler. intros H Hs.
  destruct (String.eqb_spec name "FIFO") as [->|_]; [now subst s|].
  destruct (String.eqb_spec name "SJF") as [->|_]; [now subst s|].
  destruct (String.eqb_spec name "RR") as [->|_]; [now subst s|].
  destruct (String.eqb_spec name "MLFQ") as [->|_]; [now subst s|].
  congruence.
Qed.

Lemma get_scheduler_of_scheduler_name (name : string) (s : scheduler_en) :
  scheduler_name s = Some name -> get_scheduler (Some name) = s.
Proof.
  destruct s; vm_compute; intros H; try discriminate;
    inversion H; reflexivity.
Qed.

(** X1: [get_scheduler] and the table [SCHEDULER_NAMES] are inverse of
    each other on the four policies: a string is mapped to a policy other
    than [NULL_SCHEDULER] exactly when it is, byte for byte, the name the
    table gives that policy; the null pointer and every other string
    (another case, a longer or a shorter string) give [NULL_SCHEDULER], and
    [NULL_SCHEDULER] has no name. *)
Theorem get_scheduler_inverts_scheduler_names :
  forall (name : string) (s : scheduler_en),
    (get_scheduler (Some name) = s /\ s <> NULL_SCHEDULER
     <-> scheduler_name s = Some name)
    /\ get_scheduler None = NULL_SCHEDULER
    /\ scheduler_name NULL_SCHEDULER = None
    /\ get_scheduler (Some "fifo"%string) = NULL_SCHEDULER
    /\ get_scheduler (Some "FIFO "%string) = NULL_SCHEDULER
    /\ get_scheduler (Some ""%string) = NULL_SCHEDULER.
Proof.
  intros name s. split; [|repeat split].
  split.
  - intros [H Hs]. now apply get_scheduler_of_name.
  - intros H. split; [now apply get_scheduler_of_scheduler_name|].
    intros ->. discriminate.
Qed.

(** X2: [main] goes past the checks of its arguments exactly when it is
    given one argument and that argument is the name of one of the four
    policies, which is then the policy it runs; with no argument, with two
    or more, or with any other string it returns [EXIT_FAILURE] before
    anything is created. *)
Theorem main_arguments_accepts_the_four_names :
  forall (argv : list string) (s : scheduler_en),
    main_arguments argv = Some s
    <-> exists prog name : string,
          argv = [prog; name] /\ scheduler_name s = Some name.
Proof.
  intros argv s. split.
  - unfold main_arguments.
    destruct argv as [|prog [|name [|extra argv]]]; try discriminate.
    destruct (get_scheduler (Some name)) eqn:E; try discriminate;
      intros H; inversion H; subst s; exists prog, name;
      (split; [reflexivity|]);
      (apply get_scheduler_of_name; [exact E | discriminate]).
  - intros (prog & name & -> & H). unfold main_arguments.
    rewrite (get_scheduler_of_scheduler_name _ _ H).
    destruct s; [discriminate H | reflexivity..].
Qed.

(** ** Connections *)

Lemma read_msg_nonblock_cases (d : delivery) :
  let r := read_msg_nonblock (recv_n d) (recv_would_block d) in
  (r = -2 /\ connection_lost d = false)
  \/ ((r = -1 \/ r = 0) /\ connection_lost d = true)
  \/ (r = 1 /\ connection_lost d = false /\ recv_n d = SIZEOF_MSG).
Proof.
  unfold read_msg_nonblock, connection_lost.
  destruct (Z.eqb_spec (recv_n d) 0) as [H0|H0]; simpl.
  - right. left. auto.
  - destruct (Z.ltb_spec (recv_n d) 0) as [Hneg|Hpos]; simpl.
    + replace (0 <? recv_n d) with false by (symmetry; apply Z.ltb_ge; lia).
      destruct (recv_would_block d); simpl; [left | right; left]; auto.
    + replace (0 <? recv_n d) with true by (symmetry; apply Z.ltb_lt; lia).
      destruct (Z.eqb_spec (recv_n d) SIZEOF_MSG); simpl;
        [right; right | right; left]; auto.
Qed.

(** X3: on the ready structures and the blocked queue, the second loop of
    [check_new_commands] over all the connections does what the handling
    of the messages read in full does, in the order of the connections: a
    connection with nothing to read, a lost connection and a message of
    the wrong size admit nothing. *)
Theorem serve_connections_handles_full_reads :
  forall (scheduler : scheduler_en) (now : Z)
         (conns : list (pcb_t * delivery)) (bq rq : queue_t)
         (lv : mlfq_levels),
    match serve_connections scheduler now conns bq rq lv with
    | Some (_, bq', rq', lv', _) =>
        check_new_commands scheduler now (commands_read conns) bq rq lv
        = Some (bq', rq', lv')
    | None =>
        check_new_commands scheduler now (commands_read conns) bq rq lv
        = None
    end.
Proof.
  intros scheduler now conns.
  induction conns as [|[cmd d] conns IH]; intros bq rq lv.
  - reflexivity.
  - cbn [serve_connections commands_read]. unfold serve_connection.
    destruct (read_msg_nonblock_cases d)
      as [[Hr _] | [[[Hr | Hr] _] | [Hr _]]];
      cbv zeta in Hr; rewrite Hr; cbn [Z.eqb Z.leb Z.compare Pos.eqb].
    + specialize (IH bq rq lv).
      destruct (serve_connections scheduler now conns bq rq lv)
        as [[[[[cq bq'] rq'] lv'] eff]|]; exact IH.
    + specialize (IH bq rq lv).
      destruct (serve_connections scheduler now conns bq rq lv)
        as [[[[[cq bq'] rq'] lv'] eff]|]; exact IH.
    + specialize (IH bq rq lv).
      destruct (serve_connections scheduler now conns bq rq lv)
        as [[[[[cq bq'] rq'] lv'] eff]|]; exact IH.
    + cbn [check_new_commands].
      destruct (handle_command scheduler now _ bq rq lv)
        as [[[bq1 rq1] lv1]|]; [|reflexivity].
      specialize (IH bq1 rq1 lv1).
      destruct (serve_connections scheduler now conns bq1 rq1 lv1)
        as [[[[[cq bq'] rq'] lv'] eff]|]; exact IH.
Qed.

Lemma accept_connections_appends (clients : list (Z * option pcb_t)) :
  forall command_q : queue_t,
  exists added : queue_t,
    fst (accept_connections clients command_q) = command_q ++ added
    /\ Forall (fun c => pid c = -1 /\ status c = TASK_COMMAND
                        /\ time_ms c = 0) added
    /\ map sockfd added
       = flat_map (fun cf : Z * option pcb_t =>
                     match snd cf with
                     | Some _ => [U32.wrap (fst cf)]
                     | None => []
                     end) clients.
Proof.
  induction clients as [|[client fresh] clients IH]; intros command_q.
  - exists []. simpl. now rewrite app_nil_r.
  - cbn [accept_connections flat_map fst snd].
    destruct fresh as [b|]; cbn [new_pcb].
    + destruct (IH (enqueue_pcb command_q
                      (set_status
                         (mk_pcb (-1) (status b) (slice_start_ms b)
                                 (U32.wrap client) 0 (ellapsed_time_ms b)
                                 (last_update_time_ms b) (priority_level b))
                         TASK_COMMAND)))
        as (added & Hq & Hall & Hfd).
      eexists (_ :: added). rewrite Hq. unfold enqueue_pcb.
      rewrite <- app_assoc. split; [reflexivity|].
      split; [constructor; [simpl; auto | exact Hall]|].
      simpl. now rewrite Hfd.
    + destruct (IH command_q) as (added & Hq & Hall & Hfd).
      exists added.
      destruct (accept_connections clients command_q) as [q eff].
      simpl in *. auto.
Qed.

(** X4: [check_new_commands] never takes a record out of the queue of
    connections.  Accepting clients appends one record per client whose
    allocation succeeded, with pid -1, the tag [TASK_COMMAND], a zero
    duration and the descriptor of the client; serving the connections
    keeps every record in place and rewrites only the descriptor of the
    lost ones (end of stream, error other than an empty socket, message of
    the wrong size), which becomes 4294967295. *)
Theorem connection_records_are_kept :
  forall (scheduler : scheduler_en) (now : Z)
         (clients : list (Z * option pcb_t))
         (conns : list (pcb_t * delivery)) (bq rq : queue_t)
         (lv : mlfq_levels),
    (exists added : queue_t,
        fst (accept_connections clients (map fst conns))
        = map fst conns ++ added
        /\ Forall (fun c => pid c = -1 /\ status c = TASK_COMMAND
                            /\ time_ms c = 0) added
        /\ map sockfd added
           = flat_map (fun cf : Z * option pcb_t =>
                         match snd cf with
                         | Some _ => [U32.wrap (fst cf)]
                         | None => []
                         end) clients)
    /\ match serve_connections scheduler now conns bq rq lv with
       | Some (command_q, _, _, _, _) =>
           command_q
           = map (fun cd : pcb_t * delivery =>
                    if connection_lost (snd cd)
                    then set_sockfd (fst cd) 4294967295
                    else fst cd) conns
       | None => True
       end.
Proof.
  intros scheduler now clients conns bq rq lv.
  split; [apply accept_connections_appends|].
  revert bq rq lv.
  induction conns as [|[cmd d] conns IH]; intros bq rq lv.
  - reflexivity.
  - cbn [serve_connections map fst snd]. unfold serve_connection.
    destruct (read_msg_nonblock_cases d)
      as [[Hr Hl] | [[[Hr | Hr] Hl] | (Hr & Hl & _)]];
      cbv zeta in Hr; rewrite Hr, Hl;
      cbn [Z.eqb Z.leb Z.compare Pos.eqb].
    + specialize (IH bq rq lv).
      destruct (serve_connections scheduler now conns bq rq lv)
        as [[[[[cq bq'] rq'] lv'] eff]|]; [now rewrite IH | exact I].
    + specialize (IH bq rq lv).
      destruct (serve_connections scheduler now conns bq rq lv)
        as [[[[[cq bq'] rq'] lv'] eff]|]; [now rewrite IH | exact I].
    + specialize (IH bq rq lv).
      destruct (serve_connections scheduler now conns bq rq lv)
        as [[[[[cq bq'] rq'] lv'] eff]|]; [now rewrite IH | exact I].
    + destruct (handle_command scheduler now _ bq rq lv)
        as [[[bq1 rq1] lv1]|]; [|exact I].
      specialize (IH bq1 rq1 lv1).
      destruct (serve_connections scheduler now conns bq1 rq1 lv1)
        as [[[[[cq bq'] rq'] lv'] eff]|]; [now rewrite IH | exact I].
Qed.

(** ** Admission of a batch of commands *)

Lemma check_new_commands_shared (scheduler : scheduler_en) (now : Z)
      (cs : list command) :
  scheduler <> SCHED_MLFQ ->
  forall (bq rq : queue_t) (lv : mlfq_levels),
    check_new_commands scheduler now cs bq rq lv
    = Some (bq ++ block_arrivals now cs, rq ++ run_arrivals cs, lv).
Proof.
  intros Hs. induction cs as [|c cs IH]; intros bq rq lv.
  - simpl. now rewrite !app_nil_r.
  - cbn [check_new_commands run_arrivals block_arrivals].
    unfold handle_command.
    destruct (cmd_ack_written c); cbn [negb]; [|apply IH].
    destruct (request (cmd_msg c)); try apply IH.
    + destruct (new_pcb _ _ _ _) as [p|]; [|apply IH].
      destruct scheduler; try congruence;
        rewrite IH; unfold enqueue_pcb; now rewrite <- app_assoc.
    + destruct (new_pcb _ _ _ _) as [p|]; [|apply IH].
      rewrite IH. unfold enqueue_pcb. now rewrite <- app_assoc.
Qed.

Lemma check_new_commands_mlfq (now : Z) (cs : list command) :
  forall (bq rq q0 : queue_t) (rest : mlfq_levels),
    check_new_commands SCHED_MLFQ now cs bq rq (q0 :: rest)
    = Some (bq ++ block_arrivals now cs, rq,
            (q0 ++ map (fun p => set_priority_level p 0) (run_arrivals cs))
              :: rest).
Proof.
  induction cs as [|c cs IH]; intros bq rq q0 rest.
  - simpl. now rewrite !app_nil_r.
  - cbn [check_new_commands run_arrivals block_arrivals].
    unfold handle_command.
    destruct (cmd_ack_written c); cbn [negb]; [|apply IH].
    destruct (request (cmd_msg c)); try apply IH.
    + destruct (new_pcb _ _ _ _) as [p|]; [|apply IH].
      unfold enqueue_mlfq, enqueue_level.
      change ((0 <=? 0) && (0 <? NUM_QUEUES)) with true. cbv iota.
      cbn [Z.to_nat enqueue_at]. rewrite IH. unfold enqueue_pcb.
      cbn [map]. now rewrite <- app_assoc.
    + destruct (new_pcb _ _ _ _) as [p|]; [|apply IH].
      rewrite IH. unfold enqueue_pcb. now rewrite <- app_assoc.
Qed.

(** X5: [check_new_commands] handles a batch of commands as two
    independent appends that keep the order of the connections: the blocks
    of the accepted [BLOCK] requests go to the tail of the blocked queue
    and those of the accepted [RUN] requests to the tail of the shared
    ready queue (FIFO, SJF, RR) or, with priority level 0, to the tail of
    level 0 (MLFQ, whose shared ready queue stays as it is).  A command
    whose [ACK] could not be written, whose allocation failed or whose
    request is neither [RUN] nor [BLOCK] adds nothing. *)
Theorem check_new_commands_appends_in_order :
  forall (now : Z) (cs : list command) (bq rq q0 : queue_t)
         (rest : mlfq_levels),
    check_new_commands SCHED_FIFO now cs bq rq (q0 :: rest)
    = Some (bq ++ block_arrivals now cs, rq ++ run_arrivals cs, q0 :: rest)
    /\ check_new_commands SCHED_SJF now cs bq rq (q0 :: rest)
       = Some (bq ++ block_arrivals now cs, rq ++ run_arrivals cs,
               q0 :: rest)
    /\ check_new_commands SCHED_RR now cs bq rq (q0 :: rest)
       = Some (bq ++ block_arrivals now cs, rq ++ run_arrivals cs,
               q0 :: rest)
    /\ check_new_commands SCHED_MLFQ now cs bq rq (q0 :: rest)
       = Some (bq ++ block_arrivals now cs, rq,
               (q0 ++ map (fun p => set_priority_level p 0)
                          (run_arrivals cs)) :: rest)
    /\ (forall c : command,
           cmd_ack_written c = false
           \/ cmd_fresh c = None
           \/ (request (cmd_msg c) <> PROCESS_REQUEST_RUN
               /\ request (cmd_msg c) <> PROCESS_REQUEST_BLOCK) ->
           run_arrivals [c] = [] /\ block_arrivals now [c] = []).
Proof.
  intros now cs bq rq q0 rest.
  split; [apply check_new_commands_shared; discriminate|].
  split; [apply check_new_commands_shared; discriminate|].
  split; [apply check_new_commands_shared; discriminate|].
  split; [apply check_new_commands_mlfq|].
  intros c [H | [H | [H1 H2]]]; cbn [run_arrivals block_arrivals].
  - now rewrite H.
  - rewrite H. cbn [new_pcb].
    destruct (cmd_ack_written c); [|now split].
    now destruct (request (cmd_msg c)).
  - destruct (cmd_ack_written c); [|now split].
    destruct (request (cmd_msg c)); try congruence; now split.
Qed.

(** ** The blocked queue *)

Lemma check_blocked_queue_app (a b : queue_t) (now : Z) :
  check_blocked_queue (a ++ b) now
  = (fst (check_blocked_queue a now) ++ fst (check_blocked_queue b now),
     snd (check_blocked_queue a now) ++ snd (check_blocked_queue b now)).
Proof.
  induction a as [|p a IH]; simpl.
  - now destruct (check_blocked_queue b now).
  - rewrite IH.
    destruct (check_blocked_queue a now) as [ra ea].
    destruct (check_blocked_queue b now) as [rb eb]. simpl.
    destruct (status p); try reflexivity.
    destruct (burst_complete (account_tick p)); [|reflexivity].
    unfold notify_and_free. simpl. reflexivity.
Qed.

(** X6: a [BLOCK] request for no more than one tick (zero included) is
    over within the iteration of the loop that admits it: the request is
    appended to the blocked queue, and the aging of the blocked queue that
    follows in the same iteration charges it one tick, writes its [DONE]
    with the current time and frees it, after having served the blocks
    that were already waiting. *)
Theorem short_block_request_completes_at_once :
  forall (scheduler : scheduler_en) (now fd id duration : Z)
         (bq rq : queue_t) (lv : mlfq_levels) (fresh : pcb_t),
    duration = 0 \/ (U32.in_range TICKS_MS /\ duration <= TICKS_MS) ->
    let c := mk_command fd (mk_msg id PROCESS_REQUEST_BLOCK duration) true
                        (Some fresh) in
    let p := mk_pcb id TASK_BLOCKED (slice_start_ms fresh) fd duration 0 now
                    (priority_level fresh) in
    check_new_commands scheduler now [c] bq rq lv = Some (bq ++ [p], rq, lv)
    /\ check_blocked_queue (bq ++ [p]) now
       = (fst (check_blocked_queue bq now),
          snd (check_blocked_queue bq now)
              ++ [sys_write fd (mk_msg id PROCESS_REQUEST_DONE now);
                  sys_free (account_tick p)]).
Proof.
  intros scheduler now fd id duration bq rq lv fresh Hd c p.
  split; [reflexivity|].
  rewrite check_blocked_queue_app.
  assert (Hdone : burst_complete (account_tick p) = true).
  { apply burst_complete_true. simpl.
    pose proof (U32_wrap_range (0 + TICKS_MS)) as Hr.
    unfold U32.in_range in Hr.
    destruct Hd as [-> | [HT Hle]].
    - unfold U32.add. lia.
    - rewrite U32_add_no_carry by (unfold U32.in_range in HT; lia). lia. }
  cbn [check_blocked_queue]. change (status p) with TASK_BLOCKED.
  cbv iota. rewrite Hdone. cbn [fst snd].
  now rewrite !app_nil_r.
Qed.

Lemma check_blocked_queue_filter (bq : queue_t) (now : Z) :
  Forall (fun p => status p = TASK_BLOCKED) bq ->
  check_blocked_queue bq now
  = (filter (fun p => negb (burst_complete p)) (map account_tick bq),
     flat_map (notify_and_free now)
              (filter burst_complete (map account_tick bq))).
Proof.
  induction 1 as [|p bq Hp _ IH]; simpl.
  - reflexivity.
  - rewrite IH, Hp.
    change (burst_complete
              (set_ellapsed_time_ms p
                 (U32.add (ellapsed_time_ms p) TICKS_MS)))
      with (burst_complete (account_tick p)).
    now destruct (burst_complete (account_tick p)).
Qed.

(** X7: when every block of the blocked queue carries the tag
    [TASK_BLOCKED], one aging charges each of them exactly one tick; the
    blocks whose time is then up leave the queue, each with one [DONE]
    stamped with the current time followed by its release, in the order of
    the queue, and the others stay in their order; no block is lost. *)
Theorem check_blocked_queue_ages_every_block_once :
  forall (bq : queue_t) (now : Z),
    Forall (fun p => status p = TASK_BLOCKED) bq ->
    fst (check_blocked_queue bq now)
    = filter (fun p => negb (burst_complete p)) (map account_tick bq)
    /\ snd (check_blocked_queue bq now)
       = flat_map (notify_and_free now)
                  (filter burst_complete (map account_tick bq))
    /\ Permutation
         (fst (check_blocked_queue bq now)
              ++ freed (snd (check_blocked_queue bq now)))
         (map account_tick bq).
Proof.
  intros bq now H. rewrite (check_blocked_queue_filter bq now H).
  cbn [fst snd]. split; [reflexivity|]. split; [reflexivity|].
  clear H. induction (map account_tick bq) as [|p l IH]; simpl.
  - constructor.
  - destruct (burst_complete p); simpl.
    + apply Permutation_sym. apply Permutation_cons_app.
      now apply Permutation_sym.
    + now constructor.
Qed.

(** ** FIFO over several ticks *)

Lemma freed_app (a b : list effect) : freed (a ++ b) = freed a ++ freed b.
Proof. unfold freed. apply flat_map_app. Qed.

Lemma account_running_ids (now : Z) (cpu : option pcb_t) :
  map burst_id (freed (snd (account_running now cpu))
                      ++ cpu_slot (fst (account_running now cpu)))
  = map burst_id (cpu_slot cpu).
Proof.
  destruct cpu as [p|]; [|reflexivity].
  rewrite account_running_some.
  now destruct (burst_complete (account_tick p)).
Qed.

Lemma fifo_scheduler_ids (now : Z) (rq : queue_t) (cpu : option pcb_t) :
  map burst_id
      (freed (snd (fifo_scheduler now rq cpu))
             ++ cpu_slot (snd (fst (fifo_scheduler now rq cpu)))
             ++ fst (fst (fifo_scheduler now rq cpu)))
  = map burst_id (cpu_slot cpu ++ rq).
Proof.
  rewrite fifo_scheduler_conserves, fifo_scheduler_effects.
  rewrite app_assoc, map_app, account_running_ids. now rewrite map_app.
Qed.

(** X9: under FIFO the bursts are released in the order in which they
    were admitted and none is lost.  Over any number of consecutive calls,
    with any arrivals, the bursts released so far, followed by the one on
    the CPU and by the ready queue, are exactly the burst that was on the
    CPU, the initial ready queue and the arrivals, in that order. *)
Theorem fifo_releases_in_admission_order :
  forall (arrs : list (list pcb_t)) (now : Z) (rq : queue_t)
         (cpu : option pcb_t),
    map burst_id
        (freed (snd (fifo_run now arrs rq cpu))
               ++ cpu_slot (snd (fst (fifo_run now arrs rq cpu)))
               ++ fst (fst (fifo_run now arrs rq cpu)))
    = map burst_id (cpu_slot cpu ++ rq ++ concat arrs).
Proof.
  induction arrs as [|a arrs IH]; intros now rq cpu.
  - simpl. now rewrite app_nil_r.
  - cbn [fifo_run concat].
    pose proof (fifo_scheduler_ids now (rq ++ a) cpu) as Hstep.
    destruct (fifo_scheduler now (rq ++ a) cpu) as [[rq1 cpu1] eff1].
    specialize (IH (U32.add now TICKS_MS) rq1 cpu1).
    destruct (fifo_run (U32.add now TICKS_MS) arrs rq1 cpu1)
      as [[rq2 cpu2] eff2].
    cbn [fst snd] in *.
    replace (freed (eff1 ++ eff2) ++ cpu_slot cpu2 ++ rq2)
      with (freed eff1 ++ (freed eff2 ++ cpu_slot cpu2 ++ rq2))
      by (now rewrite freed_app, <- app_assoc).
    rewrite map_app, IH.
    replace (cpu_slot cpu ++ rq ++ a ++ concat arrs)
      with ((cpu_slot cpu ++ rq ++ a) ++ concat arrs)
      by (now rewrite <- !app_assoc).
    rewrite (map_app burst_id (cpu_slot cpu ++ rq ++ a)), <- Hstep.
    rewrite !map_app, <- !app_assoc. reflexivity.
Qed.

Lemma fifo_scheduler_hold (now : Z) (rq : queue_t) (p : pcb_t) :
  ellapsed_time_ms (account_tick p) < time_ms p ->
  fifo_scheduler now rq (Some p) = (rq, Some (account_tick p), []).
Proof.
  intros Hrun. unfold fifo_scheduler. rewrite account_running_some.
  settle_tests. reflexivity.
Qed.

Lemma fifo_scheduler_complete (now : Z) (rq : queue_t) (p : pcb_t) :
  time_ms p <= ellapsed_time_ms (account_tick p) ->
  fifo_scheduler now rq (Some p)
  = (snd (dequeue_pcb rq), fst (dequeue_pcb rq),
     notify_and_free now (account_tick p)).
Proof.
  intros Hdone. unfold fifo_scheduler. rewrite account_running_some.
  settle_tests. now destruct (dequeue_pcb rq).
Qed.

Lemma fifo_run_snoc (arrs : list (list pcb_t)) :
  forall (now : Z) (last : list pcb_t) (rq : queue_t)
         (cpu : option pcb_t),
    fifo_run now (arrs ++ [last]) rq cpu
    = let '(rq1, cpu1, eff1) := fifo_run now arrs rq cpu in
      let '(rq2, cpu2, eff2) :=
        fifo_scheduler (clock_after now (length arrs)) (rq1 ++ last) cpu1 in
      (rq2, cpu2, eff1 ++ eff2).
Proof.
  induction arrs as [|a arrs IH]; intros now last rq cpu.
  - simpl.
    destruct (fifo_scheduler now (rq ++ last) cpu) as [[rq2 cpu2] eff2].
    now rewrite app_nil_r.
  - cbn [app fifo_run length].
    destruct (fifo_scheduler now (rq ++ a) cpu) as [[rq1 cpu1] eff1].
    rewrite IH, clock_after_succ.
    destruct (fifo_run (U32.add now TICKS_MS) arrs rq1 cpu1)
      as [[rq2 cpu2] eff2].
    destruct (fifo_scheduler (clock_after now (S (length arrs)))
                             (rq2 ++ last) cpu2) as [[rq3 cpu3] eff3].
    now rewrite app_assoc.
Qed.

Lemma fifo_run_hold (arrs : list (list pcb_t)) :
  forall (now : Z) (rq : queue_t) (p : pcb_t),
    0 <= TICKS_MS ->
    0 <= ellapsed_time_ms p ->
    time_ms p <= U32.modulus ->
    ellapsed_time_ms p + Z.of_nat (length arrs) * TICKS_MS < time_ms p ->
    fifo_run now arrs rq (Some p)
    = (rq ++ concat arrs,
       Some (set_ellapsed_time_ms p
               (ellapsed_time_ms p + Z.of_nat (length arrs) * TICKS_MS)),
       []).
Proof.
  induction arrs as [|a arrs IH]; intros now rq p HT He Htime Hrun.
  - simpl. rewrite app_nil_r, Z.add_0_r. now destruct p.
  - cbn [fifo_run concat length] in *. rewrite Nat2Z.inj_succ in *.
    assert (Htick : account_tick p
                    = set_ellapsed_time_ms p
                        (ellapsed_time_ms p + TICKS_MS))
      by (apply account_tick_no_carry; nia).
    rewrite fifo_scheduler_hold by (rewrite Htick; simpl; nia).
    rewrite Htick.
    rewrite IH; cbn [set_ellapsed_time_ms ellapsed_time_ms time_ms];
      try nia.
    rewrite app_assoc. do 3 f_equal.
    unfold set_ellapsed_time_ms. simpl. f_equal. lia.
Qed.

(** X8: FIFO runs a burst to completion, whatever arrives meanwhile.  A
    running block with [e] ms elapsed out of [time_ms] keeps the CPU
    through every call that leaves its elapsed time below [time_ms], one
    tick being charged per call and the arrivals lining up behind the
    ready queue in their order; the first call that brings the elapsed
    time to [time_ms] or more (without passing the 32 bits of the counter)
    writes its [DONE] with the time of that call, frees it and gives the
    CPU to the head of the ready queue. *)
Theorem fifo_burst_runs_to_completion :
  forall (p : pcb_t) (rq : queue_t) (arrs : list (list pcb_t))
         (last : list pcb_t) (now : Z),
    0 <= TICKS_MS ->
    0 <= ellapsed_time_ms p ->
    time_ms p <= U32.modulus ->
    let n := Z.of_nat (length arrs) in
    let e := ellapsed_time_ms p in
    e + n * TICKS_MS < time_ms p ->
    fifo_run now arrs rq (Some p)
    = (rq ++ concat arrs,
       Some (set_ellapsed_time_ms p (e + n * TICKS_MS)), [])
    /\ (time_ms p <= e + (n + 1) * TICKS_MS ->
        e + (n + 1) * TICKS_MS < U32.modulus ->
        fifo_run now (arrs ++ [last]) rq (Some p)
        = (snd (dequeue_pcb (rq ++ concat arrs ++ last)),
           fst (dequeue_pcb (rq ++ concat arrs ++ last)),
           [sys_write (sockfd p)
                      (mk_msg (pid p) PROCESS_REQUEST_DONE
                              (clock_after now (length arrs)));
            sys_free (set_ellapsed_time_ms p
                        (e + (n + 1) * TICKS_MS))])).
Proof.
  intros p rq arrs last now HT He Htime n e Hrun.
  assert (Hhold := fifo_run_hold arrs now rq p HT He Htime Hrun).
  split; [exact Hhold|].
  intros Hdone Hfit.
  rewrite fifo_run_snoc, Hhold. fold n. fold e.
  rewrite <- app_assoc.
  assert (Htick : account_tick
                    (set_ellapsed_time_ms p (e + n * TICKS_MS))
                  = set_ellapsed_time_ms p (e + (n + 1) * TICKS_MS)).
  { rewrite account_tick_no_carry by (simpl; unfold e, n in *; nia).
    rewrite set_ellapsed_time_ms_twice. simpl. f_equal. lia. }
  rewrite fifo_scheduler_complete by (rewrite Htick; simpl; lia).
  rewrite Htick. reflexivity.
Qed.

(** ** What the policies never do *)

Lemma sjf_scheduler_hold (flag : bool) (now : Z) (rq : queue_t)
      (p : pcb_t) :
  ellapsed_time_ms (account_tick p) < time_ms p ->
  sjf_scheduler flag now rq (Some p) = (flag, rq, Some (account_tick p), []).
Proof.
  intros Hrun. unfold sjf_scheduler. rewrite account_running_some.
  settle_tests. now destruct (negb flag && (now <? 200)).
Qed.

Lemma mlfq_scheduler_hold (lv : mlfq_levels) (now : Z) (p : pcb_t) :
  ellapsed_time_ms (account_tick p) < time_ms p ->
  U32.sub now (slice_start_ms p) < TIME_SLICE ->
  mlfq_scheduler lv now (Some p) = Some (lv, Some (account_tick p), []).
Proof.
  intros Hrun Hslice. unfold mlfq_scheduler, mlfq_account.
  settle_tests. reflexivity.
Qed.

(** X10: no policy takes the CPU from a running block in the middle of
    its time.  When the tick charged by a call leaves the burst
    unfinished, FIFO and SJF keep the block on the CPU whatever waits in
    the ready queue (a shorter job included) and leave the queue and the
    flag of SJF alone; RR and MLFQ do the same as long as the slice has
    lasted less than 500 ms, MLFQ even when a level above that of the
    block is not empty.  Such a call writes and frees nothing. *)
Theorem running_block_is_not_preempted :
  forall (now : Z) (rq : queue_t) (lv : mlfq_levels) (flag : bool)
         (p : pcb_t),
    ellapsed_time_ms (account_tick p) < time_ms p ->
    fifo_scheduler now rq (Some p) = (rq, Some (account_tick p), [])
    /\ sjf_scheduler flag now rq (Some p)
       = (flag, rq, Some (account_tick p), [])
    /\ (U32.sub now (slice_start_ms p) < 500 ->
        rr_scheduler now rq (Some p) = (rq, Some (account_tick p), [])
        /\ mlfq_scheduler lv now (Some p)
           = Some (lv, Some (account_tick p), [])).
Proof.
  intros now rq lv flag p Hrun.
  split; [now apply fifo_scheduler_hold|].
  split; [now apply sjf_scheduler_hold|].
  intros Hslice.
  split; [now apply rr_scheduler_hold | now apply mlfq_scheduler_hold].
Qed.

(** X11: MLFQ demotes a block whose slice is over even when no other
    block is ready, where RR only renews the slice.  With every level
    empty, the running block whose burst is unfinished goes down one level
    (or stays at the last one) and is dispatched again at once, its slice
    starting at the current time; the levels are empty again. *)
Theorem mlfq_demotes_a_block_running_alone :
  forall (now : Z) (p : pcb_t),
    0 <= priority_level p <= NUM_QUEUES - 1 ->
    ellapsed_time_ms (account_tick p) < time_ms p ->
    500 <= U32.sub now (slice_start_ms p) ->
    mlfq_scheduler mlfq_init now (Some p)
    = Some (mlfq_init,
            Some (mk_pcb (pid p) (status p) now (sockfd p) (time_ms p)
                         (U32.add (ellapsed_time_ms p) TICKS_MS)
                         (last_update_time_ms p)
                         (Z.min (priority_level p + 1) 2)),
            [])
    /\ rr_scheduler now [] (Some p)
       = ([],
          Some (mk_pcb (pid p) (status p) now (sockfd p) (time_ms p)
                       (U32.add (ellapsed_time_ms p) TICKS_MS)
                       (last_update_time_ms p) (priority_level p)),
          []).
Proof.
  intros now p Hlevel Hrun Hslice.
  assert (Hslice' : TIME_SLICE <= U32.sub now (slice_start_ms p))
    by exact Hslice.
  split.
  - unfold mlfq_scheduler, mlfq_account. settle_tests.
    unfold demote, NUM_QUEUES in *. cbn [priority_level account_tick
      set_ellapsed_time_ms].
    assert (Hcases : priority_level p = 0 \/ priority_level p = 1
                     \/ priority_level p = 2) by lia.
    destruct p as [i s ss fd t e lu l]. cbn [priority_level] in *.
    destruct Hcases as [-> | [-> | ->]]; reflexivity.
  - unfold rr_scheduler, rr_account. settle_tests. reflexivity.
Qed.

(** ** Invariants of the reachable states *)

Lemma main_loop_body_phases (scheduler_type : scheduler_en)
      (cs : list command) (st st' : simulator) (eff : list effect) :
  main_loop_body scheduler_type cs st = Some (st', eff) ->
  exists (bq rq : queue_t) (lv : mlfq_levels) (st1 : simulator)
         (eff_s : list effect),
    check_new_commands scheduler_type (current_time_ms st) cs
                       (blocked_queue st) (ready_queue st) (levels st)
    = Some (bq, rq, lv)
    /\ run_scheduler scheduler_type
         (mk_simulator rq
            (fst (check_blocked_queue bq (current_time_ms st)))
            lv (cpu_task st) (first_dispatch_done st) (current_time_ms st))
       = Some (st1, eff_s)
    /\ st' = mk_simulator (ready_queue st1) (blocked_queue st1)
                          (levels st1) (cpu_task st1)
                          (first_dispatch_done st1)
                          (U32.add (current_time_ms st) TICKS_MS)
    /\ eff = snd (check_blocked_queue bq (current_time_ms st)) ++ eff_s.
Proof.
  unfold main_loop_body. intros H.
  destruct (check_new_commands scheduler_type (current_time_ms st) cs
              (blocked_queue st) (ready_queue st) (levels st))
    as [[[bq rq] lv]|]; [|discriminate].
  destruct (check_blocked_queue bq (current_time_ms st))
    as [bq0 eff_b] eqn:Eb.
  destruct (run_scheduler scheduler_type _) as [[st1 eff_s]|] eqn:E;
    [|discriminate].
  inversion H; subst. exists bq, rq, lv, st1, eff_s.
  rewrite Eb. cbn [fst snd]. repeat split; auto.
Qed.

Lemma check_new_commands_mlfq_ready (now : Z) (cs : list command) :
  forall (bq rq bq' rq' : queue_t) (lv lv' : mlfq_levels),
    check_new_commands SCHED_MLFQ now cs bq rq lv = Some (bq', rq', lv') ->
    rq' = rq.
Proof.
  induction cs as [|c cs IH]; intros bq rq bq' rq' lv lv' H.
  - simpl in H. congruence.
  - cbn [check_new_commands] in H.
    destruct (handle_command SCHED_MLFQ now c bq rq lv)
      as [[[bq1 rq1] lv1]|] eqn:E; [|discriminate].
    assert (rq1 = rq).
    { unfold handle_command in E.
      destruct (cmd_ack_written c); cbn [negb] in E; [|congruence].
      destruct (request (cmd_msg c)); try congruence.
      - destruct (new_pcb _ _ _ _); [|congruence].
        destruct (enqueue_mlfq lv _); congruence.
      - destruct (new_pcb _ _ _ _); congruence. }
    subst rq1. eapply IH. exact H.
Qed.

Lemma run_scheduler_untouched (scheduler_type : scheduler_en)
      (st st' : simulator) (eff : list effect) :
  run_scheduler scheduler_type st = Some (st', eff) ->
  (scheduler_type <> SCHED_MLFQ -> levels st' = levels st)
  /\ (scheduler_type = SCHED_MLFQ -> ready_queue st' = ready_queue st)
  /\ blocked_queue st' = blocked_queue st.
Proof.
  unfold run_scheduler. intros H. destruct scheduler_type.
  - inversion H; subst. auto.
  - destruct (fifo_scheduler _ _ _) as [[rq cpu] e].
    inversion H; subst. simpl. repeat split; auto. discriminate.
  - destruct (sjf_scheduler _ _ _ _) as [[[flag rq] cpu] e].
    inversion H; subst. simpl. repeat split; auto. discriminate.
  - destruct (rr_scheduler _ _ _) as [[rq cpu] e].
    inversion H; subst. simpl. repeat split; auto. discriminate.
  - destruct (mlfq_scheduler _ _ _) as [[[lv cpu] e]|]; [|discriminate].
    inversion H; subst. simpl. repeat split; auto. congruence.
Qed.

Lemma reachable_isolation (scheduler_type : scheduler_en)
      (st : simulator) :
  reachable scheduler_type st ->
  (scheduler_type <> SCHED_MLFQ -> levels st = mlfq_init)
  /\ (scheduler_type = SCHED_MLFQ -> ready_queue st = []).
Proof.
  induction 1 as [|st cs st' eff _ [IH1 IH2] Hcs Hbody].
  - split; reflexivity.
  - destruct (main_loop_body_phases _ _ _ _ _ Hbody)
      as (bq & rq & lv & st1 & eff_s & Hcmd & Hrun & -> & _).
    destruct (run_scheduler_untouched _ _ _ _ Hrun) as (H1 & H2 & _).
    cbn [levels ready_queue] in *. split.
    + intros Hs. rewrite (H1 Hs).
      rewrite check_new_commands_shared in Hcmd by exact Hs.
      inversion Hcmd; subst. now apply IH1.
    + intros Hs. rewrite (H2 Hs). subst scheduler_type.
      rewrite (check_new_commands_mlfq_ready _ _ _ _ _ _ _ _ Hcmd).
      now apply IH2.
Qed.

(** X12: the two ready structures never mix.  In every state the loop of
    [main] reaches, the three levels of the MLFQ are empty when the active
    policy is FIFO, SJF or RR, and the shared ready queue is empty when
    the active policy is MLFQ. *)
Theorem ready_structures_are_not_mixed :
  forall (scheduler_type : scheduler_en) (st : simulator),
    reachable scheduler_type st ->
    (scheduler_type <> SCHED_MLFQ -> levels st = [[]; []; []])
    /\ (scheduler_type = SCHED_MLFQ -> ready_queue st = []).
Proof.
  intros scheduler_type st Hr. exact (reachable_isolation _ _ Hr).
Qed.

Lemma sjf_scheduler_flag (flag : bool) (now : Z) (rq : queue_t)
      (cpu : option pcb_t) :
  (cpu <> None -> flag = true) ->
  snd (fst (sjf_scheduler flag now rq cpu)) <> None ->
  fst (fst (fst (sjf_scheduler flag now rq cpu))) = true.
Proof.
  intros Hinv. unfold sjf_scheduler.
  destruct cpu as [p|].
  - rewrite (Hinv ltac:(discriminate)). cbn [negb andb].
    rewrite account_running_some.
    destruct (burst_complete (account_tick p)); [|reflexivity].
    destruct rq as [|head tl]; [reflexivity|].
    destruct (sjf_scan (head :: tl) 0 0 head) as [k m].
    destruct (remove_queue_elem (head :: tl) k) as [[r|] rq'];
      reflexivity.
  - cbn [account_running].
    destruct (negb flag && (now <? 200)); [simpl; congruence|].
    destruct rq as [|head tl]; [simpl; congruence|].
    destruct (sjf_scan (head :: tl) 0 0 head) as [k m].
    destruct (remove_queue_elem (head :: tl) k) as [[r|] rq'];
      simpl; congruence.
Qed.

Lemma reachable_sjf_flag (st : simulator) :
  reachable SCHED_SJF st ->
  cpu_task st <> None -> first_dispatch_done st = true.
Proof.
  induction 1 as [|st cs st' eff _ IH Hcs Hbody].
  - simpl. congruence.
  - destruct (main_loop_body_phases _ _ _ _ _ Hbody)
      as (bq & rq & lv & st1 & eff_s & Hcmd & Hrun & -> & _).
    unfold run_scheduler in Hrun.
    cbn [ready_queue cpu_task first_dispatch_done current_time_ms] in *.
    pose proof (sjf_scheduler_flag (first_dispatch_done st)
                  (current_time_ms st) rq (cpu_task st) IH) as Hflag.
    destruct (sjf_scheduler (first_dispatch_done st) (current_time_ms st)
                            rq (cpu_task st)) as [[[flag rq'] cpu'] e].
    inversion Hrun; subst. exact Hflag.
Qed.

(** X13: under SJF the flag [first_dispatch_done] is up in every reachable
    state whose CPU slot is occupied: no block is ever on the CPU before
    the dispatch that raises the flag, so that during the delay of the
    start the CPU is idle. *)
Theorem sjf_cpu_is_idle_until_the_first_dispatch :
  forall st : simulator,
    reachable SCHED_SJF st ->
    first_dispatch_done st = false ->
    cpu_task st = None.
Proof.
  intros st Hr Hflag.
  destruct (cpu_task st) as [p|] eqn:E; [|reflexivity].
  assert (H : first_dispatch_done st = true).
  { apply reachable_sjf_flag; [exact Hr | rewrite E; discriminate]. }
  congruence.
Qed.

Lemma Forall_by_accounting
      (Q : Z * task_status_en * Z * Z * Z * Z -> Prop)
      (l l' : list pcb_t) :
  Permutation (map accounting l') (map accounting l) ->
  Forall (fun p => Q (accounting p)) l ->
  Forall (fun p => Q (accounting p)) l'.
Proof.
  intros Hperm H. rewrite <- Forall_map in *.
  eapply Permutation_Forall; [|exact H]. now apply Permutation_sym.
Qed.

Lemma run_scheduler_ready_side (scheduler_type : scheduler_en)
      (st st' : simulator) (eff : list effect) :
  scheduler_type <> NULL_SCHEDULER ->
  sound scheduler_type st ->
  run_scheduler scheduler_type st = Some (st', eff) ->
  Permutation
    (map accounting
         (cpu_slot (cpu_task st') ++ ready_queue st'
                   ++ concat (levels st')))
    (map accounting
         (cpu_slot (fst (account_running (current_time_ms st)
                                         (cpu_task st)))
                   ++ ready_queue st ++ concat (levels st)))
  /\ blocked_queue st' = blocked_queue st
  /\ eff = snd (account_running (current_time_ms st) (cpu_task st)).
Proof.
  intros Hs Hsound Hrun.
  destruct (run_scheduler_sound _ _ Hs Hsound)
    as (st2 & E & Hperm & _ & _ & Hbq).
  rewrite E in Hrun. inversion Hrun; subst st2 eff.
  split; [|split; [exact Hbq | reflexivity]].
  unfold held in Hperm. rewrite Hbq in Hperm.
  rewrite !app_assoc in Hperm.
  rewrite (map_app accounting _ (blocked_queue st)) in Hperm.
  rewrite (map_app accounting _ (blocked_queue st)) in Hperm.
  apply Permutation_app_inv_r in Hperm.
  now rewrite <- !app_assoc in Hperm.
Qed.

Lemma check_blocked_queue_status (bq : queue_t) (now : Z) :
  Forall (fun p => status p = TASK_BLOCKED) bq ->
  Forall (fun p => status p = TASK_BLOCKED)
         (fst (check_blocked_queue bq now)).
Proof.
  intros H. rewrite (check_blocked_queue_filter bq now H). cbn [fst].
  apply Forall_forall. intros p Hin.
  apply filter_In in Hin. destruct Hin as [Hin _].
  apply in_map_iff in Hin. destruct Hin as (q & <- & Hq).
  rewrite Forall_forall in H. exact (H q Hq).
Qed.

Lemma run_arrivals_status (cs : list command) :
  Forall (fun p => status p = TASK_RUNNING) (run_arrivals cs).
Proof.
  induction cs as [|c cs IH]; cbn [run_arrivals]; [constructor|].
  destruct (cmd_ack_written c); [|exact IH].
  destruct (request (cmd_msg c)); try exact IH;
    destruct (new_pcb _ _ _ _); try exact IH.
  constructor; [reflexivity | exact IH].
Qed.

Lemma block_arrivals_status (now : Z) (cs : list command) :
  Forall (fun p => status p = TASK_BLOCKED) (block_arrivals now cs).
Proof.
  induction cs as [|c cs IH]; cbn [block_arrivals]; [constructor|].
  destruct (cmd_ack_written c); [|exact IH].
  destruct (request (cmd_msg c)); try exact IH;
    destruct (new_pcb _ _ _ _); try exact IH.
  constructor; [reflexivity | exact IH].
Qed.

Lemma check_new_commands_total (scheduler_type : scheduler_en) (now : Z)
      (cs : list command) (bq rq : queue_t) (lv : mlfq_levels) :
  length lv = Z.to_nat NUM_QUEUES ->
    check_new_commands scheduler_type now cs bq rq lv
    = Some (bq ++ block_arrivals now cs,
            (if scheduler_value scheduler_type =? 3 then rq
             else rq ++ run_arrivals cs),
            (if scheduler_value scheduler_type =? 3
             then match lv with
                  | q0 :: rest =>
                      (q0 ++ map (fun p => set_priority_level p 0)
                                 (run_arrivals cs)) :: rest
                  | [] => []
                  end
             else lv)).
Proof.
  intros Hlen.
  destruct lv as [|q0 rest]; [discriminate Hlen|].
  destruct scheduler_type; cbn [scheduler_value Z.eqb Pos.eqb];
    try (apply check_new_commands_shared; discriminate).
  apply check_new_commands_mlfq.
Qed.

Lemma reachable_status (scheduler_type : scheduler_en) (st : simulator) :
  reachable scheduler_type st ->
  Forall (fun p => status p = TASK_RUNNING)
         (cpu_slot (cpu_task st) ++ ready_queue st ++ concat (levels st))
  /\ Forall (fun p => status p = TASK_BLOCKED) (blocked_queue st).
Proof.
  induction 1 as [|st cs st' eff Hr [IHr IHb] Hcs Hbody].
  - split; constructor.
  - pose proof (reachable_sound _ _ Hr) as Hsound.
    destruct (main_loop_body_phases _ _ _ _ _ Hbody)
      as (bq & rq & lv & st1 & eff_s & Hcmd & Hrun & -> & _).
    pose proof (before_policy_sound _ _ _ _ _ _ Hcs Hsound Hcmd) as Hs0.
    destruct Hsound as (_ & Hlen & _).
    pose proof (check_new_commands_total scheduler_type
                  (current_time_ms st) cs (blocked_queue st)
                  (ready_queue st) (levels st) Hlen) as Hcmd'.
    rewrite Hcmd' in Hcmd. inversion Hcmd; subst bq rq lv. clear Hcmd.
    rewrite !Forall_app in IHr. destruct IHr as (IHc & IHq & IHl).
    assert (Hb0 : Forall (fun p => status p = TASK_BLOCKED)
                    (fst (check_blocked_queue
                            (blocked_queue st
                               ++ block_arrivals (current_time_ms st) cs)
                            (current_time_ms st)))).
    { apply check_blocked_queue_status. apply Forall_app.
      split; [exact IHb | apply block_arrivals_status]. }
    assert (Hr0 : Forall (fun p => status p = TASK_RUNNING)
                    ((if scheduler_value scheduler_type =? 3
                      then ready_queue st
                      else ready_queue st ++ run_arrivals cs)
                       ++ concat
                            (if scheduler_value scheduler_type =? 3
                             then match levels st with
                                  | q0 :: rest =>
                                      (q0 ++ map (fun p =>
                                                    set_priority_level p 0)
                                                 (run_arrivals cs)) :: rest
                                  | [] => []
                                  end
                             else levels st))).
    { pose proof (run_arrivals_status cs) as Hra.
      destruct (scheduler_value scheduler_type =? 3).
      - apply Forall_app. split; [exact IHq|].
        destruct (levels st) as [|q0 rest]; [constructor|].
        cbn [concat] in *. rewrite !Forall_app in *.
        destruct IHl as [Hq0 Hrest]. repeat split; auto.
        rewrite Forall_map. eapply Forall_impl; [|exact Hra]. auto.
      - rewrite !Forall_app. auto. }
    cbn [cpu_task ready_queue levels blocked_queue].
    destruct scheduler_type.
    + simpl in Hrun. inversion Hrun; subst st1.
      cbn [cpu_task ready_queue levels blocked_queue].
      split; [apply Forall_app; split; assumption | exact Hb0].
    + destruct (run_scheduler_ready_side SCHED_FIFO _ _ _
                  ltac:(discriminate) Hs0 Hrun) as (Hperm & Hbq & _).
      rewrite Hbq. split; [|exact Hb0].
      cbn [cpu_task ready_queue levels current_time_ms] in Hperm.
      apply (Forall_by_accounting
               (fun a => snd (fst (fst (fst (fst a)))) = TASK_RUNNING)
               _ _ Hperm).
      apply Forall_app. split; [|exact Hr0].
      destruct (cpu_task st) as [p|]; [|constructor].
      rewrite account_running_some.
      destruct (burst_complete (account_tick p)); [constructor|].
      inversion IHc; subst. constructor; [assumption | constructor].
    + destruct (run_scheduler_ready_side SCHED_SJF _ _ _
                  ltac:(discriminate) Hs0 Hrun) as (Hperm & Hbq & _).
      rewrite Hbq. split; [|exact Hb0].
      cbn [cpu_task ready_queue levels current_time_ms] in Hperm.
      apply (Forall_by_accounting
               (fun a => snd (fst (fst (fst (fst a)))) = TASK_RUNNING)
               _ _ Hperm).
      apply Forall_app. split; [|exact Hr0].
      destruct (cpu_task st) as [p|]; [|constructor].
      rewrite account_running_some.
      destruct (burst_complete (account_tick p)); [constructor|].
      inversion IHc; subst. constructor; [assumption | constructor].
    + destruct (run_scheduler_ready_side SCHED_RR _ _ _
                  ltac:(discriminate) Hs0 Hrun) as (Hperm & Hbq & _).
      rewrite Hbq. split; [|exact Hb0].
      cbn [cpu_task ready_queue levels current_time_ms] in Hperm.
      apply (Forall_by_accounting
               (fun a => snd (fst (fst (fst (fst a)))) = TASK_RUNNING)
               _ _ Hperm).
      apply Forall_app. split; [|exact Hr0].
      destruct (cpu_task st) as [p|]; [|constructor].
      rewrite account_running_some.
      destruct (burst_complete (account_tick p)); [constructor|].
      inversion IHc; subst. constructor; [assumption | constructor].
    + destruct (run_scheduler_ready_side SCHED_MLFQ _ _ _
                  ltac:(discriminate) Hs0 Hrun) as (Hperm & Hbq & _).
      rewrite Hbq. split; [|exact Hb0].
      cbn [cpu_task ready_queue levels current_time_ms] in Hperm.
      apply (Forall_by_accounting
               (fun a => snd (fst (fst (fst (fst a)))) = TASK_RUNNING)
               _ _ Hperm).
      apply Forall_app. split; [|exact Hr0].
      destruct (cpu_task st) as [p|]; [|constructor].
      rewrite account_running_some.
      destruct (burst_complete (account_tick p)); [constructor|].
      inversion IHc; subst. constructor; [assumption | constructor].
Qed.

(** X14: the tags of the control blocks never disagree with the place
    that holds them.  In every state the loop of [main] reaches, the block
    on the CPU and every block of the ready queue and of the levels of the
    MLFQ carry [TASK_RUNNING], and every block of the blocked queue
    carries [TASK_BLOCKED]; hence the test of the tag in
    [check_blocked_queue] never leaves a block of that queue unaged. *)
Theorem tags_agree_with_the_queues :
  forall (scheduler_type : scheduler_en) (st : simulator) (now : Z),
    reachable scheduler_type st ->
    Forall (fun p => status p = TASK_RUNNING)
           (cpu_slot (cpu_task st) ++ ready_queue st ++ concat (levels st))
    /\ Forall (fun p => status p = TASK_BLOCKED) (blocked_queue st)
    /\ fst (check_blocked_queue (blocked_queue st) now)
       = filter (fun p => negb (burst_complete p))
                (map account_tick (blocked_queue st)).
Proof.
  intros scheduler_type st now Hr.
  destruct (reachable_status _ _ Hr) as [H1 H2].
  split; [exact H1|]. split; [exact H2|].
  now rewrite (check_blocked_queue_filter _ now H2).
Qed.

Lemma burst_id_eq_dec (a b : Z * Z * Z) : {a = b} + {a <> b}.
Proof. repeat decide equality. Qed.

Lemma burst_id_by_accounting (l l' : list pcb_t) :
  Permutation (map accounting l') (map accounting l) ->
  Permutation (map burst_id l') (map burst_id l).
Proof.
  intros H.
  apply (Permutation_map
           (fun a : Z * task_status_en * Z * Z * Z * Z =>
              (fst (fst (fst (fst (fst a)))), snd (fst (fst (fst a))),
               snd (fst (fst a))))) in H.
  rewrite !map_map in H. exact H.
Qed.

Lemma freed_notify_and_free (now : Z) (l : list pcb_t) :
  freed (flat_map (notify_and_free now) l) = l.
Proof.
  induction l as [|p l IH]; [reflexivity|].
  cbn [flat_map]. rewrite freed_app, IH. reflexivity.
Qed.

Lemma check_blocked_queue_ids (bq : queue_t) (now : Z) :
  Forall (fun p => status p = TASK_BLOCKED) bq ->
  Permutation
    (map burst_id (fst (check_blocked_queue bq now)
                       ++ freed (snd (check_blocked_queue bq now))))
    (map burst_id bq).
Proof.
  intros H. rewrite (check_blocked_queue_filter bq now H). cbn [fst snd].
  rewrite freed_notify_and_free. clear H.
  induction bq as [|p bq IH]; [constructor|].
  cbn [map filter].
  destruct (burst_complete (account_tick p)); cbn [negb app map].
  - rewrite map_app. cbn [map].
    change (burst_id (account_tick p)) with (burst_id p).
    apply Permutation_sym.
    apply (Permutation_cons_app _ _ (burst_id p)).
    apply Permutation_sym. rewrite <- map_app. exact IH.
  - change (burst_id (account_tick p)) with (burst_id p).
    constructor. exact IH.
Qed.

Lemma run_scheduler_ids (scheduler_type : scheduler_en)
      (st st' : simulator) (eff : list effect) :
  sound scheduler_type st ->
  run_scheduler scheduler_type st = Some (st', eff) ->
  Permutation
    (map burst_id
         (cpu_slot (cpu_task st') ++ ready_queue st'
                   ++ concat (levels st') ++ freed eff))
    (map burst_id
         (cpu_slot (cpu_task st) ++ ready_queue st ++ concat (levels st)))
  /\ blocked_queue st' = blocked_queue st.
Proof.
  intros Hsound Hrun.
  assert (Hs : scheduler_type = NULL_SCHEDULER
               \/ scheduler_type <> NULL_SCHEDULER)
    by (destruct scheduler_type; ((left; reflexivity)
                                  || (right; discriminate))).
  destruct Hs as [-> | Hs].
  - simpl in Hrun. inversion Hrun; subst.
    cbn [freed flat_map]. rewrite !app_nil_r. split; reflexivity.
  - destruct (run_scheduler_ready_side _ _ _ _ Hs Hsound Hrun)
      as (Hperm & Hbq & ->).
    split; [|exact Hbq].
    apply burst_id_by_accounting in Hperm.
    pose proof (account_running_ids (current_time_ms st) (cpu_task st))
      as Hcpu.
    rewrite !map_app in *.
    apply (Permutation_count_occ burst_id_eq_dec). intros x.
    pose proof (proj1 (Permutation_count_occ burst_id_eq_dec _ _)
                      Hperm x) as Hx.
    apply (f_equal (count_occ burst_id_eq_dec)) in Hcpu.
    apply (f_equal (fun f => f x)) in Hcpu.
    rewrite !count_occ_app in *. lia.
Qed.

(** X15: the loop of [main] neither loses a control block nor releases
    one twice.  After an iteration from a state the loop reaches, the
    blocks still held (CPU, ready queue, levels of the MLFQ, blocked
    queue) together with the blocks passed to [free] during the iteration
    are, burst for burst, the blocks held before together with those
    admitted for the RUN and BLOCK requests of the tick. *)
Theorem loop_iteration_conserves_control_blocks :
  forall (scheduler_type : scheduler_en) (cs : list command)
         (st st' : simulator) (eff : list effect),
    reachable scheduler_type st ->
    Forall command_ok cs ->
    main_loop_body scheduler_type cs st = Some (st', eff) ->
    Permutation
      (map burst_id (held st' ++ freed eff))
      (map burst_id (held st ++ run_arrivals cs
                          ++ block_arrivals (current_time_ms st) cs)).
Proof.
  intros scheduler_type cs st st' eff Hr Hcs Hbody.
  pose proof (reachable_sound _ _ Hr) as Hsound.
  destruct (reachable_status _ _ Hr) as [_ Hblocked].
  destruct (main_loop_body_phases _ _ _ _ _ Hbody)
    as (bq & rq & lv & st1 & eff_s & Hcmd & Hrun & -> & ->).
  pose proof (before_policy_sound _ _ _ _ _ _ Hcs Hsound Hcmd) as Hs0.
  destruct Hsound as (_ & Hlen & _).
  rewrite (check_new_commands_total scheduler_type (current_time_ms st)
             cs (blocked_queue st) (ready_queue st) (levels st) Hlen)
    in Hcmd.
  inversion Hcmd; subst bq rq lv. clear Hcmd.
  destruct (run_scheduler_ids _ _ _ _ Hs0 Hrun) as [Hperm Hbq].
  cbn [cpu_task ready_queue levels blocked_queue] in Hperm, Hbq.
  assert (Hb : Forall (fun p => status p = TASK_BLOCKED)
                 (blocked_queue st
                    ++ block_arrivals (current_time_ms st) cs))
    by (apply Forall_app; split;
        [exact Hblocked | apply block_arrivals_status]).
  pose proof (check_blocked_queue_ids _ (current_time_ms st) Hb) as Hbl.
  unfold held. cbn [cpu_task ready_queue levels blocked_queue].
  rewrite Hbq, freed_app.
  assert (Hlv : length (levels st) <> 0%nat)
    by (rewrite Hlen; discriminate).
  apply (Permutation_count_occ burst_id_eq_dec). intros x.
  pose proof (proj1 (Permutation_count_occ burst_id_eq_dec _ _)
                    Hperm x) as Hx.
  pose proof (proj1 (Permutation_count_occ burst_id_eq_dec _ _)
                    Hbl x) as Hy.
  clear Hperm Hbl Hrun Hs0 Hbody.
  destruct (scheduler_value scheduler_type =? 3).
  - destruct (levels st) as [|q0 rest]; [now elim Hlv|].
    cbn [concat] in *.
    rewrite ?map_app, ?count_occ_app in *.
    rewrite map_map in Hx.
    change (map (fun p => burst_id (set_priority_level p 0))
                (run_arrivals cs))
      with (map burst_id (run_arrivals cs)) in Hx.
    lia.
  - rewrite ?map_app, ?count_occ_app in *. lia.
Qed.




Lemma enqueue_at_labelled (lv lv' : mlfq_levels) (n : nat) (i : Z)
      (p : pcb_t) :
  levels_labelled i lv ->
  priority_level p = i + Z.of_nat n ->
  enqueue_at lv n p = Some lv' ->
  levels_labelled i lv'.
Proof.
  revert lv' n i. induction lv as [|q lv IH]; intros lv' n i Hl Hp He.
  - discriminate.
  - destruct Hl as [Hq Hrest]. destruct n as [|n]; cbn [enqueue_at] in He.
    + inversion He; subst. split; [|exact Hrest].
      unfold enqueue_pcb. apply Forall_app. split; [exact Hq|].
      constructor; [|constructor]. rewrite Hp. cbn. lia.
    + destruct (enqueue_at lv n p) as [lv''|] eqn:E; [|discriminate].
      inversion He; subst. split; [exact Hq|].
      apply (IH lv'' n (i + 1) Hrest); [lia | exact E].
Qed.

Lemma mlfq_pick_labelled (lv : mlfq_levels) (i : Z) :
  levels_labelled i lv ->
  levels_labelled i (snd (mlfq_pick lv))
  /\ match fst (mlfq_pick lv) with
     | Some next => i <= priority_level next < i + Z.of_nat (length lv)
     | None => True
     end.
Proof.
  revert i. induction lv as [|q lv IH]; intros i Hl.
  - split; exact I.
  - destruct Hl as [Hq Hrest]. cbn [mlfq_pick].
    destruct q as [|p q]; cbn [dequeue_pcb].
    + destruct (IH (i + 1) Hrest) as [H1 H2].
      destruct (mlfq_pick lv) as [next lv'']. cbn [fst snd] in *.
      split; [split; [constructor | exact H1]|].
      destruct next as [next|]; [|exact I].
      cbn [length]. lia.
    + inversion Hq; subst. cbn [fst snd].
      split; [split; assumption|]. cbn [length]. lia.
Qed.

Lemma mlfq_scheduler_labelled (lv lv' : mlfq_levels) (now : Z)
      (cpu cpu' : option pcb_t) (eff : list effect) :
  levels_labelled 0 lv ->
  mlfq_scheduler lv now cpu = Some (lv', cpu', eff) ->
  levels_labelled 0 lv'.
Proof.
  intros Hl H. unfold mlfq_scheduler in H.
  destruct (mlfq_account lv now cpu) as [[[lv1 cpu1] eff1]|] eqn:Ea;
    [|discriminate].
  assert (Hl1 : levels_labelled 0 lv1).
  { unfold mlfq_account in Ea. destruct cpu as [p|].
    - destruct (burst_complete (account_tick p)).
      + inversion Ea; subst. exact Hl.
      + destruct (slice_expired now (account_tick p)).
        * destruct (enqueue_level lv _ _) as [lv2|] eqn:Ee;
            [|discriminate].
          inversion Ea; subst. unfold enqueue_level in Ee.
          destruct ((0 <=? priority_level (demote (account_tick p)))
                    && (priority_level (demote (account_tick p))
                        <? NUM_QUEUES)) eqn:Er; [|discriminate].
          apply andb_prop in Er. destruct Er as [Er _].
          apply Z.leb_le in Er.
          apply (enqueue_at_labelled _ _ _ 0 _ Hl) in Ee;
            [exact Ee | lia].
        * inversion Ea; subst. exact Hl.
    - inversion Ea; subst. exact Hl. }
  unfold mlfq_dispatch in H. destruct cpu1 as [p|].
  - inversion H; subst. exact Hl1.
  - destruct (mlfq_pick_labelled lv1 0 Hl1) as [Hp _].
    destruct (mlfq_pick lv1) as [[next|] lv2]; inversion H; subst;
      exact Hp.
Qed.

Lemma reachable_labelled (st : simulator) :
  reachable SCHED_MLFQ st -> levels_labelled 0 (levels st).
Proof.
  induction 1 as [|st cs st' eff Hr IH Hcs Hbody].
  - cbn. repeat split; constructor.
  - pose proof (reachable_sound _ _ Hr) as (_ & Hlen & _).
    destruct (main_loop_body_phases _ _ _ _ _ Hbody)
      as (bq & rq & lv & st1 & eff_s & Hcmd & Hrun & -> & _).
    rewrite (check_new_commands_total SCHED_MLFQ (current_time_ms st)
               cs (blocked_queue st) (ready_queue st) (levels st) Hlen)
      in Hcmd.
    cbn [scheduler_value Z.eqb Pos.eqb] in Hcmd.
    inversion Hcmd; subst bq rq lv. clear Hcmd.
    cbn [levels]. cbn [run_scheduler] in Hrun.
    cbn [levels cpu_task current_time_ms] in Hrun.
    destruct (mlfq_scheduler _ _ _) as [[[lv' cpu'] e]|] eqn:E;
      [|discriminate].
    inversion Hrun; subst. cbn [levels].
    eapply mlfq_scheduler_labelled; [|exact E].
    destruct (levels st) as [|q0 rest]; [exact I|].
    destruct IH as [H0 Hrest]. split; [|exact Hrest].
    apply Forall_app. split; [exact H0|].
    rewrite Forall_map. apply Forall_forall. intros p _. reflexivity.
Qed.

Lemma levels_labelled_nth_error (lv : mlfq_levels) (i : Z) (n : nat)
      (q : queue_t) :
  levels_labelled i lv ->
  nth_error lv n = Some q ->
  Forall (fun p => priority_level p = i + Z.of_nat n) q.
Proof.
  revert i n. induction lv as [|q0 lv IH]; intros i n Hl Hn.
  - destruct n; discriminate.
  - destruct Hl as [H0 Hrest]. destruct n as [|n]; cbn in Hn.
    + inversion Hn; subst. eapply Forall_impl; [|exact H0].
      intros p Hp. cbn beta in Hp. lia.
    + specialize (IH (i + 1) n Hrest Hn).
      eapply Forall_impl; [|exact IH]. intros p Hp. cbn beta in Hp. lia.
Qed.

(** X17: under MLFQ the field [priority_level] of a waiting control block
    is the index of the level that holds it.  In every state the loop of
    [main] reaches, each queue [levels[i]] holds only blocks with
    [priority_level = i]: [enqueue_mlfq] writes 0 before it appends to
    level 0, the demotion appends the block to the level it has just
    written, and the dispatch only removes heads. *)
Theorem mlfq_levels_hold_blocks_of_their_own_priority :
  forall (st : simulator) (i : nat) (q : queue_t),
    reachable SCHED_MLFQ st ->
    nth_error (levels st) i = Some q ->
    Forall (fun p => priority_level p = Z.of_nat i) q.
Proof.
  intros st i q Hr Hq.
  pose proof (reachable_labelled st Hr) as Hl.
  exact (levels_labelled_nth_error _ 0 i q Hl Hq).
Qed.

Lemma freed_free_queue (q : queue_t) : freed (free_queue q) = q.
Proof.
  unfold free_queue. induction q as [|p q IH]; [reflexivity|].
  cbn [length free_queue_turns dequeue_pcb].
  change (freed (sys_free p :: free_queue_turns (length q) q))
    with (p :: freed (free_queue_turns (length q) q)).
  now rewrite IH.
Qed.

Lemma pcb_eq_dec (a b : pcb_t) : {a = b} + {a <> b}.
Proof. repeat decide equality. Qed.

Lemma concat_mlfq_init : concat mlfq_init = [].
Proof. reflexivity. Qed.

(** X18: what the shutdown of [main] releases.  The releases after the
    loop cover the queue of connections, the ready queue, the blocked
    queue and the CPU.  From a state the loop reaches under FIFO, SJF or
    RR these are all the control blocks the simulator holds.  Under MLFQ
    they are the connections, the blocked queue and the CPU only: the
    blocks waiting in the levels are the ones left unreleased. *)
Theorem shutdown_releases_the_shared_queues :
  forall (scheduler_type : scheduler_en) (command_queue : queue_t)
         (st : simulator),
    reachable scheduler_type st ->
    (scheduler_type <> SCHED_MLFQ ->
     Permutation (freed (main_cleanup command_queue st))
                 (command_queue ++ held st))
    /\ (scheduler_type = SCHED_MLFQ ->
        freed (main_cleanup command_queue st)
        = command_queue ++ blocked_queue st ++ cpu_slot (cpu_task st)
        /\ Permutation (command_queue ++ held st)
                       (freed (main_cleanup command_queue st)
                              ++ concat (levels st))).
Proof.
  intros scheduler_type command_queue st Hr.
  assert (Hf : freed (main_cleanup command_queue st)
               = command_queue ++ ready_queue st ++ blocked_queue st
                               ++ cpu_slot (cpu_task st)).
  { unfold main_cleanup. rewrite !freed_app, !freed_free_queue.
    now destruct (cpu_task st). }
  destruct (reachable_isolation _ _ Hr) as [Hl Hq].
  rewrite Hf. unfold held. split.
  - intros Hs. rewrite (Hl Hs), concat_mlfq_init.
    apply Permutation_app_head.
    apply (Permutation_count_occ pcb_eq_dec). intros x.
    rewrite !count_occ_app. cbn [count_occ]. lia.
  - intros Hs. rewrite (Hq Hs). split; [reflexivity|].
    rewrite <- !app_assoc. apply Permutation_app_head.
    apply (Permutation_count_occ pcb_eq_dec). intros x.
    rewrite !count_occ_app. cbn [count_occ app]. lia.
Qed.

End Simulator.

(** * Concrete runs

    The tick of the examples is 10 ms. *)



(** ** Where the specification and the sources part *)




(** ** The theorems at work on concrete inputs *)


(** Durations 300, 100 and 500 in the ready queue at 200 ms, before any
    dispatch: the block of 100 ms is taken from the middle. *)
Lemma sjf_dispatches_first_shortest_witness :
  fst (account_running 10 200 None) = None
  /\ [burst 300 0; burst 100 0; burst 500 0] <> []
  /\ (false = true \/ 200 <= 200)
  /\ sjf_scheduler 10 false 200 [burst 300 0; burst 100 0; burst 500 0] None
     = (true, [burst 300 0; burst 500 0], Some (burst 100 0), []).
Proof.
  assert (H1 : fst (account_running 10 200 None) = None) by reflexivity.
  assert (H2 : [burst 300 0; burst 100 0; burst 500 0] <> [])
    by discriminate.
  assert (H3 : false = true \/ 200 <= 200) by (right; lia).
  split; [exact H1|]. split; [exact H2|]. split; [exact H3|].
  apply (proj2 (sjf_dispatches_first_shortest 10 false 200 _ None H1 H2 H3));
    reflexivity.
Defined.


(** The same block under MLFQ, at level 0 and with empty levels: it is
    demoted to level 1, queued there and, being alone, dispatched again. *)
Lemma mlfq_quantum_expiry_demotes_witness :
  length mlfq_init = Z.to_nat NUM_QUEUES
  /\ 0 <= priority_level (mk_pcb 1 TASK_RUNNING 500 3 1300 490 0 0)
     <= NUM_QUEUES - 1
  /\ ellapsed_time_ms
       (account_tick 10 (mk_pcb 1 TASK_RUNNING 500 3 1300 490 0 0))
     < time_ms (mk_pcb 1 TASK_RUNNING 500 3 1300 490 0 0)
  /\ 500 <= U32.sub 1000
                    (slice_start_ms
                       (mk_pcb 1 TASK_RUNNING 500 3 1300 490 0 0))
  /\ priority_level
       (demote (account_tick 10 (mk_pcb 1 TASK_RUNNING 500 3 1300 490 0 0)))
     = 1
  /\ mlfq_scheduler 10 mlfq_init 1000
                    (Some (mk_pcb 1 TASK_RUNNING 500 3 1300 490 0 0))
     = Some (mlfq_init,
             Some (mk_pcb 1 TASK_RUNNING 1000 3 1300 500 0 1), []).
Proof.
  assert (H1 : length mlfq_init = Z.to_nat NUM_QUEUES)
    by reflexivity.
  assert (H2 : 0 <= priority_level (mk_pcb 1 TASK_RUNNING 500 3 1300 490 0 0)
               <= NUM_QUEUES - 1) by (vm_compute; split; discriminate).
  assert (H3 : ellapsed_time_ms
                 (account_tick 10 (mk_pcb 1 TASK_RUNNING 500 3 1300 490 0 0))
               < time_ms (mk_pcb 1 TASK_RUNNING 500 3 1300 490 0 0))
    by reflexivity.
  assert (H4 : 500 <= U32.sub 1000
                 (slice_start_ms
                    (mk_pcb 1 TASK_RUNNING 500 3 1300 490 0 0)))
    by (vm_compute; discriminate).
  split; [exact H1|]. split; [exact H2|]. split; [exact H3|].
  split; [exact H4|].
  destruct (mlfq_quantum_expiry_demotes 10 1000 mlfq_init _ H1 H2 H3 H4)
    as (Hp & _).
  split; [exact Hp | reflexivity].
Defined.




(** ** The model at work *)

(** Two blocks of 100 ms behind one of 200 ms: the first of the two is
    chosen and the other keeps its place. *)
Example sjf_equal_durations_first_wins :
  sjf_scheduler 10 true 300
    [mk_pcb 1 TASK_RUNNING 0 3 200 0 0 0; mk_pcb 2 TASK_RUNNING 0 4 100 0 0 0;
     mk_pcb 3 TASK_RUNNING 0 5 100 0 0 0] None
  = (true,
     [mk_pcb 1 TASK_RUNNING 0 3 200 0 0 0; mk_pcb 3 TASK_RUNNING 0 5 100 0 0 0],
     Some (mk_pcb 2 TASK_RUNNING 0 4 100 0 0 0), []).
Proof. reflexivity. Qed.

(** Level 0 empty, one block in each of levels 1 and 2: level 1 is
    served. *)
Example mlfq_serves_level_1_before_level_2 :
  mlfq_scheduler 10
    [[]; [mk_pcb 1 TASK_RUNNING 0 3 900 500 0 1];
     [mk_pcb 2 TASK_RUNNING 0 4 900 700 0 2]] 5000 None
  = Some ([[]; []; [mk_pcb 2 TASK_RUNNING 0 4 900 700 0 2]],
          Some (mk_pcb 1 TASK_RUNNING 5000 3 900 500 0 1), []).
Proof. reflexivity. Qed.

(** Round robin with ticks of 10 ms, a burst of 1300 ms and one of 5000 ms
    admitted together at time 0, over 400 calls: the only burst to complete
    is the first one, at 2300 ms, after the slices 0-500, 1000-1500 and
    2000-2300, with exactly 1300 ms elapsed. *)
Example rr_two_bursts_400_calls :
  snd (rr_run 10 0 (repeat [] 400)
              [burst 1300 0; mk_pcb 2 TASK_RUNNING 0 4 5000 0 0 0] None)
  = [sys_write 3 (mk_msg 1 PROCESS_REQUEST_DONE 2300);
     sys_free (mk_pcb 1 TASK_RUNNING 2000 3 1300 1300 0 0)].
Proof. vm_compute. reflexivity. Qed.

(** ** The further properties at work on concrete inputs *)

(** A [BLOCK] request of 50 ms from process 2 and a [RUN] request of
    100 ms from process 1, read by the first iteration under FIFO: the
    block of process 2 waits in the blocked queue with one tick served and
    the block of process 1 is on the CPU. *)
Lemma blocked_and_running_reachable :
  reachable 10 SCHED_FIFO
            (mk_simulator [] [mk_pcb 2 TASK_BLOCKED 0 5 50 10 0 0]
                          mlfq_init (Some (burst 100 0)) false 10).
Proof.
  apply (reachable_loop 10 SCHED_FIFO initial_simulator
           [mk_command 5 (mk_msg 2 PROCESS_REQUEST_BLOCK 50) true
                       (Some blank_pcb);
            run_command 1 3 100] _ []).
  - apply reachable_initial.
  - repeat constructor; unfold U32.in_range, U32.modulus; simpl; lia.
  - reflexivity.
Qed.

(** Two [RUN] requests read by the first iteration under MLFQ: the first
    block is dispatched at once and the second waits in level 0. *)
Lemma mlfq_two_bursts_reachable :
  reachable 10 SCHED_MLFQ
            (mk_simulator [] []
                          [[mk_pcb 2 TASK_RUNNING 0 4 300 0 0 0]; []; []]
                          (Some (burst 100 0)) false 10).
Proof.
  apply (reachable_loop 10 SCHED_MLFQ initial_simulator
           [run_command 1 3 100; run_command 2 4 300] _ []).
  - apply reachable_initial.
  - repeat constructor; unfold U32.in_range, U32.modulus; simpl; lia.
  - reflexivity.
Qed.

(** A [RUN] request read by the first iteration under SJF: the block
    waits, since the clock is below 200 ms. *)
Lemma sjf_waiting_reachable :
  reachable 10 SCHED_SJF
            (mk_simulator [burst 100 0] [] mlfq_init None false 10).
Proof.
  apply (reachable_loop 10 SCHED_SJF initial_simulator
           [run_command 1 3 100] _ []).
  - apply reachable_initial.
  - repeat constructor; unfold U32.in_range, U32.modulus; simpl; lia.
  - reflexivity.
Qed.

(** A [BLOCK] request of one tick: the block is queued and released by
    the same iteration. *)
Lemma short_block_request_completes_at_once_witness :
  (10 = 0 \/ (U32.in_range 10 /\ 10 <= 10))
  /\ check_blocked_queue 10 [mk_pcb 2 TASK_BLOCKED 0 5 10 0 0 0] 0
     = ([], [sys_write 5 (mk_msg 2 PROCESS_REQUEST_DONE 0);
             sys_free (mk_pcb 2 TASK_BLOCKED 0 5 10 10 0 0)]).
Proof.
  assert (H : 10 = 0 \/ (U32.in_range 10 /\ 10 <= 10))
    by (right; unfold U32.in_range, U32.modulus; lia).
  split; [exact H|].
  exact (proj2 (short_block_request_completes_at_once
                  10 SCHED_FIFO 0 5 2 10 [] [] mlfq_init blank_pcb H)).
Defined.

(** Two blocked control blocks at 40 ms: the first reaches its 50 ms and
    leaves, the second stays with one more tick. *)
Lemma check_blocked_queue_ages_every_block_once_witness :
  Forall (fun p => status p = TASK_BLOCKED)
         [mk_pcb 2 TASK_BLOCKED 0 5 50 40 0 0;
          mk_pcb 3 TASK_BLOCKED 0 6 500 0 0 0]
  /\ check_blocked_queue 10 [mk_pcb 2 TASK_BLOCKED 0 5 50 40 0 0;
                             mk_pcb 3 TASK_BLOCKED 0 6 500 0 0 0] 40
     = ([mk_pcb 3 TASK_BLOCKED 0 6 500 10 0 0],
        [sys_write 5 (mk_msg 2 PROCESS_REQUEST_DONE 40);
         sys_free (mk_pcb 2 TASK_BLOCKED 0 5 50 50 0 0)]).
Proof.
  assert (H : Forall (fun p => status p = TASK_BLOCKED)
                [mk_pcb 2 TASK_BLOCKED 0 5 50 40 0 0;
                 mk_pcb 3 TASK_BLOCKED 0 6 500 0 0 0])
    by (repeat constructor).
  split; [exact H|].
  destruct (check_blocked_queue_ages_every_block_once 10 _ 40 H)
    as (H1 & H2 & _).
  rewrite (surjective_pairing (check_blocked_queue 10 _ 40)), H1, H2.
  reflexivity.
Defined.

(** A burst of 100 ms dispatched with nothing served: nine calls leave it
    on the CPU with 90 ms, the tenth releases it. *)
Lemma fifo_burst_runs_to_completion_witness :
  0 <= 10
  /\ 0 <= ellapsed_time_ms (burst 100 0)
  /\ time_ms (burst 100 0) <= U32.modulus
  /\ ellapsed_time_ms (burst 100 0)
     + Z.of_nat (length (repeat (@nil pcb_t) 9)) * 10
     < time_ms (burst 100 0)
  /\ fifo_run 10 10 (repeat [] 9) [] (Some (burst 100 0))
     = ([], Some (burst 100 90), []).
Proof.
  assert (H1 : 0 <= 10) by lia.
  assert (H2 : 0 <= ellapsed_time_ms (burst 100 0)) by (simpl; lia).
  assert (H3 : time_ms (burst 100 0) <= U32.modulus)
    by (unfold U32.modulus; simpl; lia).
  assert (H4 : ellapsed_time_ms (burst 100 0)
               + Z.of_nat (length (repeat (@nil pcb_t) 9)) * 10
               < time_ms (burst 100 0)) by (simpl; lia).
  split; [exact H1|]. split; [exact H2|]. split; [exact H3|].
  split; [exact H4|].
  exact (proj1 (fifo_burst_runs_to_completion
                  10 (burst 100 0) [] (repeat [] 9) [] 10 H1 H2 H3 H4)).
Defined.

(** A burst of 100 ms at its first tick, with another block waiting: no
    policy takes it off the CPU. *)
Lemma running_block_is_not_preempted_witness :
  ellapsed_time_ms (account_tick 10 (burst 100 0)) < time_ms (burst 100 0)
  /\ sjf_scheduler 10 true 10 [burst 50 0] (Some (burst 100 0))
     = (true, [burst 50 0], Some (burst 100 10), []).
Proof.
  assert (H : ellapsed_time_ms (account_tick 10 (burst 100 0))
              < time_ms (burst 100 0)) by reflexivity.
  split; [exact H|].
  exact (proj1 (proj2 (running_block_is_not_preempted
                         10 10 [burst 50 0] mlfq_init true
                         (burst 100 0) H))).
Defined.

(** The block of 1300 ms dispatched at 500 ms, alone at 1000 ms: MLFQ
    puts it back on the CPU one level down. *)
Lemma mlfq_demotes_a_block_running_alone_witness :
  0 <= priority_level (mk_pcb 1 TASK_RUNNING 500 3 1300 490 0 0)
  <= NUM_QUEUES - 1
  /\ ellapsed_time_ms
       (account_tick 10 (mk_pcb 1 TASK_RUNNING 500 3 1300 490 0 0))
     < time_ms (mk_pcb 1 TASK_RUNNING 500 3 1300 490 0 0)
  /\ 500 <= U32.sub 1000
                    (slice_start_ms
                       (mk_pcb 1 TASK_RUNNING 500 3 1300 490 0 0))
  /\ mlfq_scheduler 10 mlfq_init 1000
                    (Some (mk_pcb 1 TASK_RUNNING 500 3 1300 490 0 0))
     = Some (mlfq_init,
             Some (mk_pcb 1 TASK_RUNNING 1000 3 1300 500 0 1), []).
Proof.
  assert (H1 : 0 <= priority_level
                      (mk_pcb 1 TASK_RUNNING 500 3 1300 490 0 0)
               <= NUM_QUEUES - 1) by (vm_compute; split; discriminate).
  assert (H2 : ellapsed_time_ms
                 (account_tick 10 (mk_pcb 1 TASK_RUNNING 500 3 1300 490 0 0))
               < time_ms (mk_pcb 1 TASK_RUNNING 500 3 1300 490 0 0))
    by reflexivity.
  assert (H3 : 500 <= U32.sub 1000
                 (slice_start_ms
                    (mk_pcb 1 TASK_RUNNING 500 3 1300 490 0 0)))
    by (vm_compute; discriminate).
  split; [exact H1|]. split; [exact H2|]. split; [exact H3|].
  exact (proj1 (mlfq_demotes_a_block_running_alone 10 1000 _ H1 H2 H3)).
Defined.

(** Under MLFQ the shared ready queue of the state above is empty. *)
Lemma ready_structures_are_not_mixed_witness :
  reachable 10 SCHED_MLFQ
            (mk_simulator [] []
                          [[mk_pcb 2 TASK_RUNNING 0 4 300 0 0 0]; []; []]
                          (Some (burst 100 0)) false 10)
  /\ (SCHED_MLFQ = SCHED_MLFQ ->
      ready_queue
        (mk_simulator [] []
                      [[mk_pcb 2 TASK_RUNNING 0 4 300 0 0 0]; []; []]
                      (Some (burst 100 0)) false 10) = []).
Proof.
  split; [exact mlfq_two_bursts_reachable|].
  exact (proj2 (ready_structures_are_not_mixed
                  10 SCHED_MLFQ _ mlfq_two_bursts_reachable)).
Defined.

(** Under SJF, before the first dispatch, the CPU is idle although a block
    waits. *)
Lemma sjf_cpu_is_idle_until_the_first_dispatch_witness :
  reachable 10 SCHED_SJF
            (mk_simulator [burst 100 0] [] mlfq_init None false 10)
  /\ first_dispatch_done
       (mk_simulator [burst 100 0] [] mlfq_init None false 10) = false
  /\ cpu_task (mk_simulator [burst 100 0] [] mlfq_init None false 10)
     = None.
Proof.
  split; [exact sjf_waiting_reachable|]. split; [reflexivity|].
  exact (sjf_cpu_is_idle_until_the_first_dispatch
           10 _ sjf_waiting_reachable eq_refl).
Defined.

(** The tags of the state with one blocked and one running block. *)
Lemma tags_agree_with_the_queues_witness :
  reachable 10 SCHED_FIFO
            (mk_simulator [] [mk_pcb 2 TASK_BLOCKED 0 5 50 10 0 0]
                          mlfq_init (Some (burst 100 0)) false 10)
  /\ Forall (fun p => status p = TASK_BLOCKED)
            (blocked_queue
               (mk_simulator [] [mk_pcb 2 TASK_BLOCKED 0 5 50 10 0 0]
                             mlfq_init (Some (burst 100 0)) false 10)).
Proof.
  split; [exact blocked_and_running_reachable|].
  exact (proj1 (proj2 (tags_agree_with_the_queues
                         10 SCHED_FIFO _ 10
                         blocked_and_running_reachable))).
Defined.

(** One more iteration from that state, with a [RUN] request of 20 ms from
    process 4: three blocks are held afterwards and none is released. *)
Lemma loop_iteration_conserves_control_blocks_witness :
  reachable 10 SCHED_FIFO
            (mk_simulator [] [mk_pcb 2 TASK_BLOCKED 0 5 50 10 0 0]
                          mlfq_init (Some (burst 100 0)) false 10)
  /\ Forall command_ok [run_command 4 7 20]
  /\ main_loop_body 10 SCHED_FIFO [run_command 4 7 20]
       (mk_simulator [] [mk_pcb 2 TASK_BLOCKED 0 5 50 10 0 0]
                     mlfq_init (Some (burst 100 0)) false 10)
     = Some (mk_simulator [mk_pcb 4 TASK_RUNNING 0 7 20 0 0 0]
                          [mk_pcb 2 TASK_BLOCKED 0 5 50 20 0 0]
                          mlfq_init (Some (burst 100 10)) false 20, [])
  /\ Permutation
       (map burst_id
            (held (mk_simulator [mk_pcb 4 TASK_RUNNING 0 7 20 0 0 0]
                                [mk_pcb 2 TASK_BLOCKED 0 5 50 20 0 0]
                                mlfq_init (Some (burst 100 10)) false 20)
                  ++ freed []))
       (map burst_id
            (held (mk_simulator [] [mk_pcb 2 TASK_BLOCKED 0 5 50 10 0 0]
                                mlfq_init (Some (burst 100 0)) false 10)
                  ++ run_arrivals [run_command 4 7 20]
                  ++ block_arrivals 10 [run_command 4 7 20])).
Proof.
  assert (Hcs : Forall command_ok [run_command 4 7 20])
    by (repeat constructor; unfold U32.in_range, U32.modulus; simpl; lia).
  assert (Hb : main_loop_body 10 SCHED_FIFO [run_command 4 7 20]
                 (mk_simulator [] [mk_pcb 2 TASK_BLOCKED 0 5 50 10 0 0]
                               mlfq_init (Some (burst 100 0)) false 10)
               = Some (mk_simulator [mk_pcb 4 TASK_RUNNING 0 7 20 0 0 0]
                                    [mk_pcb 2 TASK_BLOCKED 0 5 50 20 0 0]
                                    mlfq_init (Some (burst 100 10)) false 20,
                       [])) by reflexivity.
  split; [exact blocked_and_running_reachable|].
  split; [exact Hcs|]. split; [exact Hb|].
  exact (loop_iteration_conserves_control_blocks
           10 SCHED_FIFO _ _ _ _ blocked_and_running_reachable Hcs Hb).
Defined.


(** The block waiting in level 0 of the MLFQ state above has priority
    level 0. *)
Lemma mlfq_levels_hold_blocks_of_their_own_priority_witness :
  reachable 10 SCHED_MLFQ
            (mk_simulator [] []
                          [[mk_pcb 2 TASK_RUNNING 0 4 300 0 0 0]; []; []]
                          (Some (burst 100 0)) false 10)
  /\ nth_error
       (levels
          (mk_simulator [] []
                        [[mk_pcb 2 TASK_RUNNING 0 4 300 0 0 0]; []; []]
                        (Some (burst 100 0)) false 10)) 0
     = Some [mk_pcb 2 TASK_RUNNING 0 4 300 0 0 0]
  /\ Forall (fun p => priority_level p = Z.of_nat 0)
            [mk_pcb 2 TASK_RUNNING 0 4 300 0 0 0].
Proof.
  split; [exact mlfq_two_bursts_reachable|]. split; [reflexivity|].
  exact (mlfq_levels_hold_blocks_of_their_own_priority
           10 _ 0%nat _ mlfq_two_bursts_reachable eq_refl).
Defined.

(** Shutdown in the MLFQ state above, with no connection open: the block
    on the CPU is released and the one in level 0 is not. *)
Lemma shutdown_releases_the_shared_queues_witness :
  reachable 10 SCHED_MLFQ
            (mk_simulator [] []
                          [[mk_pcb 2 TASK_RUNNING 0 4 300 0 0 0]; []; []]
                          (Some (burst 100 0)) false 10)
  /\ (SCHED_MLFQ = SCHED_MLFQ ->
      freed (main_cleanup []
               (mk_simulator [] []
                             [[mk_pcb 2 TASK_RUNNING 0 4 300 0 0 0]; []; []]
                             (Some (burst 100 0)) false 10))
      = [burst 100 0]).
Proof.
  split; [exact mlfq_two_bursts_reachable|]. intros Hs.
  exact (proj1 (proj2 (shutdown_releases_the_shared_queues
                         10 SCHED_MLFQ [] _ mlfq_two_bursts_reachable)
                      Hs)).
Defined.
